(** * File naming of the artifact downloader

    A shallow embedding of the file-name synthesis code of the extension
    ([getUniqueFileName] and the functions it calls, as given in the
    directory-structure design document), together with the properties the
    specification states about it.

    Conventions of the embedding:
    - a JavaScript string is a [string]; the code only ever inspects
      characters of the ASCII range, and every unit outside it is treated
      alike (it is not a word character, not a separator), so that
      the choice of encoding for other characters does not matter;
    - the [Set] of used names is a [gset string]; as the code mutates the set
      it is given, the functions return the new set next to their result;
    - a [do ... while] loop is a recursive function with a bound on the
      number of iterations, shown below never to be reached. *)

From stdpp Require Import gmap strings pretty list.
From Stdlib Require Import Ascii.

Local Open Scope Z_scope.

(** ** JavaScript primitives used by the code *)

Module Js.

(** Values that flow into a string parameter: a string, [null] or
    [undefined]. *)
Inductive value : Type :=
| Null
| Undefined
| Str (s : string).

Definition code (c : ascii) : N := N_of_ascii c.

(** [\w] of a regular expression: [A-Za-z0-9_]. *)
Definition isWordChar (c : ascii) : bool :=
  let n := code c in
  ((48 <=? n) && (n <=? 57) || (65 <=? n) && (n <=? 90)
   || (97 <=? n) && (n <=? 122) || (n =? 95))%N.

Definition isDigit (c : ascii) : bool :=
  let n := code c in ((48 <=? n) && (n <=? 57))%N.

(** [s.toLowerCase()] on the letters A-Z. *)
Definition lowerChar (c : ascii) : ascii :=
  let n := code c in
  if ((65 <=? n) && (n <=? 90))%N then ascii_of_N (n + 32) else c.

Fixpoint toLowerCase (s : string) : string :=
  match s with
  | EmptyString => EmptyString
  | String c s' => String (lowerChar c) (toLowerCase s')
  end.

(** [s.split(sep)] for a separator that matches exactly one character:
    [split (λ c, c = "/")] is [s.split('/')], and a character class is split
    on in the same way. The result is never empty: [''.split('/')] is
    [['']]. *)
Fixpoint split (sep : ascii → bool) (s : string) : list string :=
  match s with
  | EmptyString => [EmptyString]
  | String c s' =>
      if sep c then EmptyString :: split sep s'
      else match split sep s' with
           | seg :: rest => String c seg :: rest
           | [] => [String c EmptyString]
           end
  end.

Definition isChar (a : ascii) (c : ascii) : bool := bool_decide (c = a).

(** [parts.join(sep)]. *)
Definition join (sep : string) (parts : list string) : string :=
  String.concat sep parts.

(** [parts.pop()]: the last element ([None] for [undefined], on an empty
    array) and the array that is left. *)
Definition pop (parts : list string) : option string * list string :=
  (last parts, removelast parts).

(** [x || d] where [x] is a string or [undefined]. *)
Definition orElse (x : option string) (d : string) : string :=
  match x with
  | Some (String c s) => String c s
  | _ => d
  end.

Fixpoint take (n : nat) (s : string) : string :=
  match n, s with
  | S n', String c s' => String c (take n' s')
  | _, _ => EmptyString
  end.

Fixpoint drop (n : nat) (s : string) : string :=
  match n, s with
  | S n', String _ s' => drop n' s'
  | _, _ => s
  end.

(** [s.substring(start, end)]: negative arguments count as 0, arguments
    beyond the length as the length, and the two are swapped when
    [start > end]. *)
Definition substring (s : string) (start stop : Z) : string :=
  let a := Z.to_nat start in
  let b := Z.to_nat stop in
  take (Nat.max a b - Nat.min a b) (drop (Nat.min a b) s).

(** [s.substring(start)]. *)
Definition substringFrom (s : string) (start : Z) : string :=
  drop (Z.to_nat start) s.

Fixpoint lastIndexOfNat (s : string) (c : ascii) : option nat :=
  match s with
  | EmptyString => None
  | String a s' =>
      match lastIndexOfNat s' c with
      | Some i => Some (S i)
      | None => if bool_decide (a = c) then Some O else None
      end
  end.

(** [s.lastIndexOf(c)] for a one-character [c]: [-1] when [c] does not
    occur. *)
Definition lastIndexOf (s : string) (c : ascii) : Z :=
  match lastIndexOfNat s c with
  | Some i => Z.of_nat i
  | None => -1
  end.

(** [Number.MAX_SAFE_INTEGER]: up to it, and one further, the numbers of
    JavaScript count exactly. *)
Definition MAX_SAFE_INTEGER : Z := 2 ^ 53 - 1.

(** [Number.isSafeInteger(n)] for a non-negative integer [n]. *)
Definition isSafeInteger (n : nat) : Prop := Z.of_nat n ≤ MAX_SAFE_INTEGER.

(** A template literal [`${n}`] for a non-negative integer [n], in plain
    decimal digits. A number of JavaScript is a double: the literal prints
    these digits for the integers up to [MAX_SAFE_INTEGER + 1], which are
    exact; a larger number is rounded first, and from 1e21 on it is printed
    with an exponent. The counter of [makeUnique] is at most the size of the
    set of used names plus one, so it is in this range; a message index can
    be any number, and what is proved from the digits of [messageIndex + 1]
    is stated for [isSafeInteger messageIndex]. *)
Definition numberToString (n : nat) : string := pretty n.

(** [do { x = mk(st); st = next(st) } while (used.has(x)); return x],
    for at most [fuel] iterations. *)
Fixpoint doWhileUsed {St : Type} (fuel : nat) (mk : St → string)
    (next : St → St) (used : gset string) (st : St) : option string :=
  match fuel with
  | O => None
  | S fuel' =>
      let x := mk st in
      if bool_decide (x ∈ used) then doWhileUsed fuel' mk next used (next st)
      else Some x
  end.

End Js.

(** ** The sanitizer *)

(** The class [[^\w\-._]] of [sanitizeComponent] matches what is not
    allowed. *)
Definition allowedChar (c : ascii) : bool :=
  Js.isWordChar c || Js.isChar "-" c || Js.isChar "." c || Js.isChar "_" c.

(** [component.replace(/[^\w\-._]+/g, "_")], scanning left to right;
    [inRun] tells that the previous character was part of the current
    match. *)
Fixpoint replaceRuns (inRun : bool) (s : string) : string :=
  match s with
  | EmptyString => EmptyString
  | String c s' =>
      if allowedChar c then String c (replaceRuns false s')
      else if inRun then replaceRuns true s'
      else String "_" (replaceRuns true s')
  end.

Definition sanitizeComponent (component : string) : string :=
  replaceRuns false component.

(** ** Splitting a title and building the candidate path *)

Record PathComponents : Type := {
  sanitizedPath : string;
  sanitizedFilename : string
}.

(** The backslash, by its code. *)
Definition backslash : ascii := "092".

(** The class [[\/\\]] that titles are split on. *)
Definition isSeparator (c : ascii) : bool :=
  Js.isChar "/" c || Js.isChar backslash c.

Definition sanitizePathComponents (title : string) : PathComponents :=
  let parts0 := Js.split isSeparator title in
  let '(popped, parts) := Js.pop parts0 in
  let filename := Js.orElse popped "untitled" in
  let sanitizedPathParts := map sanitizeComponent parts in
  {| sanitizedPath := Js.join "/" sanitizedPathParts;
     sanitizedFilename := sanitizeComponent filename |}.

(** [path ? ... : ...] tests that the string is not empty. *)
Definition truthy (s : string) : bool :=
  match s with EmptyString => false | _ => true end.

Definition constructFilePath (path filename extension : string)
    (messageIndex : nat) (useDirectoryStructure : bool) : string :=
  if useDirectoryStructure then
    if truthy path then path +:+ "/" +:+ filename +:+ extension
    else filename +:+ extension
  else
    Js.numberToString (messageIndex + 1) +:+ "_" +:+ filename +:+ extension.

(** ** The extension table *)

(** Modelled from the spec: [getFileExtension] of background.js is not among
    the sources, only its tests are. The table is the one of the
    specification (section 4.3), which is also the list the tests go
    through; the lookup is on the lower-cased tag, and a missing, empty or
    unknown tag gives [.txt]. *)
Definition languageTable : list (string * string) :=
  [ ("javascript", ".js"); ("typescript", ".ts"); ("html", ".html");
    ("css", ".css"); ("python", ".py"); ("java", ".java"); ("c", ".c");
    ("cpp", ".cpp"); ("ruby", ".rb"); ("php", ".php"); ("swift", ".swift");
    ("go", ".go"); ("rust", ".rs"); ("shell", ".sh"); ("sql", ".sql");
    ("kotlin", ".kt"); ("scala", ".scala"); ("r", ".r"); ("matlab", ".m") ].

(** Modelled from the spec: the table as the object the lookup is made
    in. *)
Definition languageToExt : gmap string string := list_to_map languageTable.

(** Modelled from the spec: see [languageTable]. *)
Definition getFileExtension (language : Js.value) : string :=
  match language with
  | Js.Str (String c s) =>
      default ".txt" (languageToExt !! Js.toLowerCase (String c s))
  | _ => ".txt"
  end.

(** ** Making a name unique *)

(** The loops below stop at the first name that is not in [usedNames]. They
    are given [size usedNames + 1] iterations: the names they try are
    pairwise distinct, so one of that many is free (see
    [doWhileUsed_total]). *)
Definition iterations (usedNames : gset string) : nat := S (size usedNames).

Definition makeUnique (fileName : string) (usedNames : gset string)
    : option string :=
  let lastSlashIndex := Js.lastIndexOf fileName "/" in
  let basePath :=
    if bool_decide (lastSlashIndex ≠ -1)
    then Js.substring fileName 0 (lastSlashIndex + 1) else "" in
  let baseFilename :=
    if bool_decide (lastSlashIndex ≠ -1)
    then Js.substringFrom fileName (lastSlashIndex + 1) else fileName in
  let lastDotIndex := Js.lastIndexOf baseFilename "." in
  let name :=
    if bool_decide (lastDotIndex ≠ -1)
    then Js.substring baseFilename 0 lastDotIndex else baseFilename in
  let ext :=
    if bool_decide (lastDotIndex ≠ -1)
    then Js.substringFrom baseFilename lastDotIndex else "" in
  Js.doWhileUsed (iterations usedNames)
    (λ counter : nat,
       basePath +:+ name +:+ "_" +:+ Js.numberToString counter +:+ ext)
    S usedNames 1%nat.

(** The helpers of the alternative version. *)
Module FP.

(** [fns.reduce((y, fn) => fn(y), arg)] *)
Definition compose {A : Type} (fns : list (A → A)) (arg : A) : A :=
  foldl (λ y fn, fn y) arg fns.

(** [fns.reduceRight((y, fn) => fn(y), arg)] *)
Definition pipe {A : Type} (fns : list (A → A)) (arg : A) : A :=
  foldr (λ fn y, fn y) arg fns.

Definition append (separator suffix base : string) : string :=
  Js.join separator [base; suffix].

Definition prepend (separator base suffix : string) : string :=
  Js.join separator [base; suffix].

End FP.

Definition makeUniqueWithArrays (fileName : string) (usedNames : gset string)
    : option string :=
  let '(popped, pathParts) := Js.pop (Js.split (Js.isChar "/") fileName) in
  let filenamePart := Js.orElse popped "" in
  let basePath := Js.join "/" pathParts in
  let filenameParts0 := Js.split (Js.isChar ".") filenamePart in
  let '(ext, filenameParts) :=
    if (1 <? length filenameParts0)%nat
    then (default "" (Js.pop filenameParts0).1, (Js.pop filenameParts0).2)
    else ("", filenameParts0) in
  let baseFilename := Js.join "." filenameParts in
  let appendExt := FP.append "." ext in
  let prependPath := FP.append "/" basePath in
  Js.doWhileUsed (iterations usedNames)
    (λ uniqueSuffix : string,
       let appendSuffix := FP.append "_" uniqueSuffix in
       let makeUniqueName := FP.pipe [appendSuffix; appendExt; prependPath] in
       makeUniqueName baseFilename)
    (λ uniqueSuffix, uniqueSuffix +:+ "*") usedNames "*".

(** ** Assigning a name *)

(** The name, and the set of used names after the call. *)
Definition getUniqueFileName (title : string) (language : Js.value)
    (messageIndex : nat) (usedNames : gset string)
    (useDirectoryStructure : bool) : option (string * gset string) :=
  let pc := sanitizePathComponents title in
  let extension := getFileExtension language in
  let fileName :=
    constructFilePath (sanitizedPath pc) (sanitizedFilename pc) extension
      messageIndex useDirectoryStructure in
  fileName' ←
    (if bool_decide (fileName ∈ usedNames) then makeUnique fileName usedNames
     else Some fileName);
  Some (fileName', {[ fileName' ]} ∪ usedNames).

(** One artifact of a run, as [processMessage] hands it to
    [getUniqueFileName]. *)
Record ArtifactRef : Type := {
  rawTitle : string;
  language : Js.value;
  ordinalIndex : nat
}.

(** A run names the artifacts in order, on one set of used names. *)
Fixpoint assignAll (useDirectoryStructure : bool) (artifacts : list ArtifactRef)
    (usedNames : gset string) : option (list string * gset string) :=
  match artifacts with
  | [] => Some ([], usedNames)
  | a :: rest =>
      '(p, usedNames') ←
        getUniqueFileName (rawTitle a) (language a) (ordinalIndex a)
          usedNames useDirectoryStructure;
      '(ps, usedNames'') ← assignAll useDirectoryStructure rest usedNames';
      Some (p :: ps, usedNames'')
  end.

(** ** The path composer of the specification *)

Module PathComposer.

(** Modelled from the spec: the two layout policies of section 3. *)
Inductive LayoutPolicy : Type := Flat | DirectoryStructure.

(** Modelled from the spec: the numeric prefix [n+1] and its underscore, left
    out when there is no index. *)
Definition indexPrefix (ordinalIndex : option nat) : string :=
  match ordinalIndex with
  | Some n => Js.numberToString (n + 1) +:+ "_"
  | None => ""
  end.

(** Modelled from the spec: [inferDirectoryStructure] of background.js, the
    function with an optional index and an optional suffix that the
    specification calls [compose], is not among the sources (its tests
    are). This follows section 4.2: the title is split on both
    separators, each segment is sanitized, the last one is the leaf; Flat
    drops the directories; the index prefix is there when an index is
    given, the suffix goes between leaf and extension. For
    DirectoryStructure the nested representation is taken, as in the
    tests of [inferDirectoryStructure]. *)
Definition compose (rawTitle extension : string) (ordinalIndex : option nat)
    (suffix : option string) (policy : LayoutPolicy) : string :=
  let segments := map sanitizeComponent (Js.split isSeparator rawTitle) in
  let leaf := default "" (last segments) in
  let dirs := removelast segments in
  let file :=
    indexPrefix ordinalIndex +:+ leaf +:+ default "" suffix +:+ extension in
  match policy with
  | Flat => file
  | DirectoryStructure => Js.join "/" (dirs ++ [file])
  end.

End PathComposer.

(** ** Notions the properties are stated with *)

(** Every character of [s] satisfies [P]. *)
Fixpoint allChars (P : ascii → bool) (s : string) : bool :=
  match s with
  | EmptyString => true
  | String c s' => P c && allChars P s'
  end.

(** The segments of a path, and those before the last one. *)
Definition segments (p : string) : list string := Js.split (Js.isChar "/") p.

Definition directorySegments (p : string) : list string :=
  removelast (segments p).

Definition beginsWith (c : ascii) (s : string) : bool :=
  match s with
  | String a _ => bool_decide (a = c)
  | EmptyString => false
  end.

Definition notChar (a : ascii) (c : ascii) : bool := negb (Js.isChar a c).

(** What section 6 of the specification asks of a path: forward slashes
    only, no leading slash, no [..] segment. *)
Definition safePath (p : string) : Prop :=
  allChars (notChar backslash) p = true
  ∧ beginsWith "/" p = false
  ∧ ".." ∉ segments p.

(** The characters a returned path is made of. *)
Definition pathChar (c : ascii) : bool := allowedChar c || Js.isChar "/" c.

(** The sanitizer in the words of the specification: the string is cut into
    its maximal runs of allowed and of other characters, and each run of
    other characters becomes one underscore. *)
Fixpoint maximalRuns (s : string) : list (bool * string) :=
  match s with
  | EmptyString => []
  | String c s' =>
      match maximalRuns s' with
      | (b, r) :: rest =>
          if bool_decide (b = allowedChar c) then (b, String c r) :: rest
          else (allowedChar c, String c EmptyString) :: (b, r) :: rest
      | [] => [(allowedChar c, String c EmptyString)]
      end
  end.

(** Neighbouring runs are of different kinds: the runs are maximal. *)
Fixpoint alternating (runs : list (bool * string)) : Prop :=
  match runs with
  | run :: rest =>
      match rest with
      | run' :: _ => run.1 ≠ run'.1
      | [] => True
      end ∧ alternating rest
  | [] => True
  end.

(** A run is not empty and all of one kind. *)
Definition uniformRun (run : bool * string) : Prop :=
  run.2 ≠ "" ∧ allChars (λ c, bool_decide (allowedChar c = run.1)) run.2 = true.

Definition runsText (runs : list (bool * string)) : string :=
  foldr (λ run acc, run.2 +:+ acc) "" runs.

Definition renderRun (run : bool * string) : string :=
  if run.1 then run.2 else "_".

Definition renderRuns (runs : list (bool * string)) : string :=
  foldr (λ run acc, renderRun run +:+ acc) "" runs.

Definition sanitizeByRuns (s : string) : string := renderRuns (maximalRuns s).

(** The same when the scan is already inside a run of other characters: the
    underscore of that run has been written. *)
Definition renderOpen (inRun : bool) (runs : list (bool * string)) : string :=
  match runs with
  | (false, _) :: rest => if inRun then renderRuns rest else renderRuns runs
  | _ => renderRuns runs
  end.

(** The path [getUniqueFileName] builds before it looks at the used names. *)
Definition candidatePath (title : string) (lang : Js.value) (messageIndex : nat)
    (useDirectoryStructure : bool) : string :=
  let pc := sanitizePathComponents title in
  constructFilePath (sanitizedPath pc) (sanitizedFilename pc)
    (getFileExtension lang) messageIndex useDirectoryStructure.

(** The name a loop tries in iteration [k] (counted from 0), when it is
    started in state [st]. *)
Definition tried {St : Type} (mk : St → string) (next : St → St) (st : St)
    (k : nat) : string :=
  mk (Nat.iter k next st).

(** ** Further notions *)

(** The characters of [s] that satisfy [P], in order. *)
Fixpoint filterChars (P : ascii → bool) (s : string) : string :=
  match s with
  | EmptyString => EmptyString
  | String c s' => if P c then String c (filterChars P s') else filterChars P s'
  end.

(** The characters [A-Za-z0-9.-]: those the sanitizer keeps and never
    writes itself. *)
Definition keptChar (c : ascii) : bool := allowedChar c && notChar "_" c.

(** A title with every backslash written as a slash. *)
Fixpoint toForwardSlashes (s : string) : string :=
  match s with
  | EmptyString => EmptyString
  | String c s' =>
      String (if Js.isChar backslash c then "/"%char else c) (toForwardSlashes s')
  end.

(** The directory part of a path: nothing, or text up to and including a
    slash. *)
Definition isDirectoryPrefix (dir : string) : Prop :=
  dir = "" ∨ ∃ d, dir = d +:+ "/".

(** A leaf name cut at its last dot: [ext] is empty and [name] has no dot, or
    [ext] is a dot and text without a dot. Neither has a slash. *)
Definition isLeafSplit (name ext : string) : Prop :=
  allChars (notChar "/") name = true
  ∧ ((ext = "" ∧ allChars (notChar ".") name = true)
     ∨ ∃ e, ext = String "." e
            ∧ allChars (notChar ".") e = true
            ∧ allChars (notChar "/") e = true).

(** The name [makeUnique] builds for a counter. *)
Definition countedName (dir name ext : string) (counter : nat) : string :=
  dir +:+ name +:+ "_" +:+ Js.numberToString counter +:+ ext.

(** The marker [makeUniqueWithArrays] uses in iteration [k] (from 0):
    [k + 1] stars. *)
Definition starRun (k : nat) : string :=
  Nat.iter k (λ uniqueSuffix, uniqueSuffix +:+ "*") "*".

(** What [makeUnique] does once it has cut off the directory part. *)
Definition uniqueInDirectory (basePath baseFilename : string)
    (usedNames : gset string) : option string :=
  let lastDotIndex := Js.lastIndexOf baseFilename "." in
  let name :=
    if bool_decide (lastDotIndex ≠ -1)
    then Js.substring baseFilename 0 lastDotIndex else baseFilename in
  let ext :=
    if bool_decide (lastDotIndex ≠ -1)
    then Js.substringFrom baseFilename lastDotIndex else "" in
  Js.doWhileUsed (iterations usedNames)
    (λ counter : nat,
       basePath +:+ name +:+ "_" +:+ Js.numberToString counter +:+ ext)
    S usedNames 1%nat.

(** The parts of the path [getUniqueFileName] builds: the directory part
    (with its slash; empty in Flat mode and for a title without directory)
    and the name before the extension (with the index in Flat mode). *)
(** The directory names of a title: what is left of [parts] in
    [sanitizePathComponents] when the file name is popped. *)
Definition directoryNames (title : string) : list string :=
  snd (Js.pop (Js.split isSeparator title)).

Definition directoryPart (title : string) (useDirectoryStructure : bool) : string :=
  let path := sanitizedPath (sanitizePathComponents title) in
  if useDirectoryStructure && truthy path then path +:+ "/" else "".

Definition leafName (title : string) (messageIndex : nat)
    (useDirectoryStructure : bool) : string :=
  let filename := sanitizedFilename (sanitizePathComponents title) in
  if useDirectoryStructure then filename
  else Js.numberToString (messageIndex + 1) +:+ "_" +:+ filename.

(** ** The composition helper of the migration plan *)

Module Composition.

(** [fns.reduce((acc, fn) => fn(acc), value)] *)
Definition pipe {T : Type} (fns : list (T → T)) (value : T) : T :=
  foldl (λ acc fn, fn acc) value fns.

End Composition.

(** ** Adding the artifacts of a message to the archive *)

Module Background.

(** What [extractArtifacts] returns for one tag. *)
Record Artifact : Type := {
  title : string;
  language : string;
  content : string
}.

(** The archive as the code sees it: [zip.file(path, content)] sets the
    entry [path], as [files[path] = content] in the JSZip of the tests. *)
Definition file (zip : gmap string string) (path content : string)
    : gmap string string :=
  <[ path := content ]> zip.

(** What the loop works on: the counter and the two objects it changes. *)
Record Archive : Type := {
  artifactCount : nat;
  usedNames : gset string;
  zip : gmap string string
}.

(** [artifacts.forEach(artifact => { artifactCount++; const fileName =
    getUniqueFileName(artifact.title, artifact.language, message.index,
    usedNames, useDirectoryStructure); zip.file(fileName, artifact.content) })] *)
Fixpoint addArtifacts (messageIndex : nat) (useDirectoryStructure : bool)
    (artifacts : list Artifact) (st : Archive) : option Archive :=
  match artifacts with
  | [] => Some st
  | artifact :: rest =>
      '(fileName, usedNames') ←
        getUniqueFileName (title artifact) (Js.Str (language artifact))
          messageIndex (usedNames st) useDirectoryStructure;
      addArtifacts messageIndex useDirectoryStructure rest
        {| artifactCount := S (artifactCount st);
           usedNames := usedNames';
           zip := file (zip st) fileName (content artifact) |}
  end.

End Background.

(** ** Regular expressions *)

(** The regular expressions of the code are sequences of literal text,
    single characters of a class and repetitions of a class (greedy [*] or
    lazy [*?], in a capturing group or not). They are matched as JavaScript
    matches them, by backtracking: a greedy repetition takes as many
    characters as it can and gives them back one by one, a lazy one takes as
    few as it can. *)
Module Regex.

Inductive item : Type :=
| Lit (text : string)
| One (cls : ascii → bool)
| Star (greedy : bool) (cls : ascii → bool) (capture : bool).

(** A match: the matched text, the captured groups, and the text after the
    match. *)
Record result : Type := {
  whole : string;
  groups : list string;
  remainder : string
}.

Fixpoint startsWith (text s : string) : bool :=
  match text, s with
  | EmptyString, _ => true
  | String a text', String b s' => bool_decide (a = b) && startsWith text' s'
  | String _ _, EmptyString => false
  end.

(** [s.includes(text)] *)
Fixpoint includes (text s : string) : bool :=
  startsWith text s
  || match s with
     | String _ s' => includes text s'
     | EmptyString => false
     end.

(** A greedy repetition followed by the rest of the expression [k]: the
    characters taken, and the match of the rest. *)
Fixpoint starGreedy (cls : ascii → bool) (k : string → option result)
    (s : string) : option (string * result) :=
  match s with
  | String c s' =>
      if cls c then
        match starGreedy cls k s' with
        | Some (taken, r) => Some (String c taken, r)
        | None => r ← k s; Some (EmptyString, r)
        end
      else r ← k s; Some (EmptyString, r)
  | EmptyString => r ← k s; Some (EmptyString, r)
  end.

Fixpoint starLazy (cls : ascii → bool) (k : string → option result)
    (s : string) : option (string * result) :=
  match k s with
  | Some r => Some (EmptyString, r)
  | None =>
      match s with
      | String c s' =>
          if cls c then
            '(taken, r) ← starLazy cls k s'; Some (String c taken, r)
          else None
      | EmptyString => None
      end
  end.

(** A match that starts at the beginning of [s]. *)
Fixpoint matchFrom (items : list item) (s : string) : option result :=
  match items with
  | [] => Some {| whole := ""; groups := []; remainder := s |}
  | Lit text :: rest =>
      if startsWith text s then
        r ← matchFrom rest (Js.drop (String.length text) s);
        Some {| whole := text +:+ whole r; groups := groups r;
                remainder := remainder r |}
      else None
  | One cls :: rest =>
      match s with
      | String c s' =>
          if cls c then
            r ← matchFrom rest s';
            Some {| whole := String c (whole r); groups := groups r;
                    remainder := remainder r |}
          else None
      | EmptyString => None
      end
  | Star greedy cls capture :: rest =>
      '(taken, r) ←
        (if greedy then starGreedy else starLazy) cls (matchFrom rest) s;
      Some {| whole := taken +:+ whole r;
              groups := (if capture then [taken] else []) ++ groups r;
              remainder := remainder r |}
  end.

(** The first match in [s], from the left: the text before it and the
    match. This is [regex.exec(s)] from the start of [s], and
    [s.match(regex)] for an expression without the [g] flag. *)
Fixpoint search (items : list item) (s : string) : option (string * result) :=
  match matchFrom items s with
  | Some r => Some (EmptyString, r)
  | None =>
      match s with
      | String c s' => '(before, r) ← search items s'; Some (String c before, r)
      | EmptyString => None
      end
  end.

(** [regex.test(s)] *)
Definition test (items : list item) (s : string) : bool :=
  bool_decide (is_Some (search items s)).

(** A text none of whose proper ends is one of its beginnings: two
    occurrences of it cannot overlap. *)
Definition unbordered (text : string) : bool :=
  forallb (λ k, negb (startsWith (Js.drop k text) text))
    (seq 1 (String.length text - 1)).

End Regex.

(** ** Finding the artifacts of a message *)

(** The double quote, by its code. *)
Definition quote : ascii := "034".

(** [/<antArtifact[^>]*>([\s\S]*?)<\/antArtifact>/g] *)
Definition artifactRegex : list Regex.item :=
  [ Regex.Lit "<antArtifact"; Regex.Star true (notChar ">") false;
    Regex.Lit ">"; Regex.Star false (λ _, true) true;
    Regex.Lit "</antArtifact>" ].

(** The text that starts an attribute: the name, an equals sign and a double
    quote. *)
Definition attributeStart (name : string) : string :=
  name +:+ "=" +:+ String quote "".

(** The expressions for [title] and [language]: the start of the
    attribute, then a group of as many characters other than the double
    quote as there are. *)
Definition attributeRegex (name : string) : list Regex.item :=
  [ Regex.Lit (attributeStart name); Regex.Star true (notChar quote) true ].

(** [m ? m[1] : fallback] where [m] is [fullTag.match] of the expression of
    the attribute. *)
Definition attributeOr (name fallback fullTag : string) : string :=
  match Regex.search (attributeRegex name) fullTag with
  | Some (_, m) => nth 0 (Regex.groups m) ""
  | None => fallback
  end.

(** The artifact of one match of [artifactRegex]; [trim] is
    [String.prototype.trim]. *)
Definition artifactOfMatch (trim : string → string) (m : Regex.result)
    : Background.Artifact :=
  let fullTag := Regex.whole m in
  let content := nth 0 (Regex.groups m) "" in
  {| Background.title := attributeOr "title" "Untitled" fullTag;
     Background.language := attributeOr "language" "txt" fullTag;
     Background.content := trim content |}.

(** [while ((match = artifactRegex.exec(text)) !== null) { ... }]: each
    turn goes on behind the match before. At most [fuel] turns. *)
Fixpoint extractLoop (fuel : nat) (trim : string → string) (text : string)
    : option (list Background.Artifact) :=
  match fuel with
  | O => None
  | S fuel' =>
      match Regex.search artifactRegex text with
      | None => Some []
      | Some (_, m) =>
          artifacts ← extractLoop fuel' trim (Regex.remainder m);
          Some (artifactOfMatch trim m :: artifacts)
      end
  end.

(** Every match uses up text, so one turn more than the text has characters
    is enough (see [extractLoop_enough]). *)
Definition extractArtifacts (trim : string → string) (text : string)
    : option (list Background.Artifact) :=
  extractLoop (S (String.length text)) trim text.

(** [s.trim()] for the white space of the ASCII range (tab, line feed,
    vertical tab, form feed, carriage return, space). *)
Fixpoint trimStartAscii (s : string) : string :=
  match s with
  | String c s' => if Ascii.is_space c then trimStartAscii s' else s
  | EmptyString => EmptyString
  end.

Definition trimAscii (s : string) : string :=
  String.rev (trimStartAscii (String.rev (trimStartAscii s))).

(** The number of places in [s] where [text] starts. *)
Fixpoint occurrences (text s : string) : nat :=
  ((if Regex.startsWith text s then 1 else 0)
   + match s with
     | String _ s' => occurrences text s'
     | EmptyString => 0
     end)%nat.

(** An attribute as it is written in a tag: the name, an equals sign and the
    value in double quotes. *)
Definition attributeText (name value : string) : string :=
  attributeStart name +:+ value +:+ String quote "".

(** A tag with its content: [attrs] is what stands between the tag name and
    the [>]. *)
Definition artifactTag (attrs body : string) : string :=
  "<antArtifact" +:+ attrs +:+ ">" +:+ body +:+ "</antArtifact>".

(** ** Recognising a chat request *)

(** A request as the test looks at it: [method] and [url] may be missing. *)
Record Request : Type := {
  method : Js.value;
  url : Js.value
}.

(** [!v] is false: the value is a string that is not empty. *)
Definition truthyValue (v : Js.value) : bool :=
  match v with
  | Js.Str (String _ _) => true
  | _ => false
  end.

(** The expression of [testIsChatRequest]: [https://], a host that ends in
    [claude.ai], and the path of the messages of a conversation. *)
Definition chatRegex : list Regex.item :=
  [ Regex.Lit "https://"; Regex.Star true (notChar "/") false;
    Regex.Lit "claude.ai/api/organizations/";
    Regex.One (notChar "/"); Regex.Star true (notChar "/") false;
    Regex.Lit "/chat_conversations/";
    Regex.One (notChar "/"); Regex.Star true (notChar "/") false;
    Regex.Lit "/messages" ].

(** [v === s] for a string [s]. *)
Definition strictEquals (v : Js.value) (s : string) : bool :=
  match v with
  | Js.Str t => bool_decide (t = s)
  | _ => false
  end.

(** [None] is a request that is [undefined] or [null]. *)
Definition testIsChatRequest (request : option Request) : bool :=
  match request with
  | None => false
  | Some r =>
      if negb (truthyValue (method r)) || negb (truthyValue (url r)) then false
      else
        let isMatch :=
          match url r with
          | Js.Str u => Regex.test chatRegex u
          | _ => false
          end in
        strictEquals (method r) "GET" && isMatch
  end.

(** ** The artifacts of a message *)

(** The fields of a message that the code reads. *)
Record Message : Type := {
  sender : Js.value;
  text : Js.value;
  index : nat
}.

(** [if (message.sender === "assistant" && message.text) { const artifacts =
    extractArtifacts(message.text); artifacts.forEach(...) }], the part of
    [processMessage] that handles one message. *)
Definition addMessageArtifacts (trim : string → string)
    (useDirectoryStructure : bool) (message : Message)
    (st : Background.Archive) : option Background.Archive :=
  if strictEquals (sender message) "assistant" && truthyValue (text message)
  then
    match text message with
    | Js.Str t =>
        artifacts ← extractArtifacts trim t;
        Background.addArtifacts (index message) useDirectoryStructure
          artifacts st
    | _ => Some st
    end
  else Some st.

(** * Properties *)

(** ** Strings *)

Section strings.
Implicit Types (s t : string) (c : ascii) (P : ascii → bool).

Lemma allChars_app P s t :
  allChars P (s +:+ t) = allChars P s && allChars P t.
Proof.
  induction s as [|a s IH]; [done|].
  change (String a s +:+ t) with (String a (s +:+ t)).
  simpl. rewrite IH. by rewrite andb_assoc.
Qed.

Lemma allChars_impl P (Q : ascii → bool) s :
  (∀ c, P c = true → Q c = true) → allChars P s = true → allChars Q s = true.
Proof.
  intros HPQ. induction s as [|a s IH]; simpl; [done|].
  intros [Ha Hs]%andb_true_iff. apply andb_true_iff. auto.
Qed.

Lemma allChars_take P n s : allChars P s = true → allChars P (Js.take n s) = true.
Proof.
  revert n. induction s as [|a s IH]; intros [|n]; simpl; try done.
  intros [Ha Hs]%andb_true_iff. apply andb_true_iff. auto.
Qed.

Lemma allChars_drop P n s : allChars P s = true → allChars P (Js.drop n s) = true.
Proof.
  revert n. induction s as [|a s IH]; intros [|n]; simpl; try done.
  intros [Ha Hs]%andb_true_iff. auto.
Qed.

Lemma take_drop n s : Js.take n s +:+ Js.drop n s = s.
Proof.
  revert n. induction s as [|a s IH]; intros [|n]; try done.
  simpl. change (String a ?x +:+ ?y) with (String a (x +:+ y)). by rewrite IH.
Qed.

Lemma app_length s t : String.length (s +:+ t) = (String.length s + String.length t)%nat.
Proof.
  induction s as [|a s IH]; [done|].
  change (String a s +:+ t) with (String a (s +:+ t)). simpl. by rewrite IH.
Qed.

(** Appending on the right can be undone as well. *)
Lemma app_inj_r s1 s2 t : s1 +:+ t = s2 +:+ t → s1 = s2.
Proof.
  intros Heq.
  assert (String.length s1 = String.length s2) as Hlen.
  { apply (f_equal String.length) in Heq. rewrite !app_length in Heq. lia. }
  revert s2 Heq Hlen. induction s1 as [|a s1 IH]; intros [|b s2]; try done.
  change (String ?a ?x +:+ ?y) with (String a (x +:+ y)).
  intros [= -> Heq] [= Hlen]. f_equal. by apply IH.
Qed.

End strings.

(** ** The sanitizer *)

Lemma replaceRuns_allowed inRun s :
  allChars allowedChar (replaceRuns inRun s) = true.
Proof.
  revert inRun. induction s as [|c s IH]; intros inRun; simpl; [done|].
  destruct (allowedChar c) eqn:Hc; simpl.
  - by rewrite Hc, IH.
  - destruct inRun; simpl; by rewrite ?IH.
Qed.

Lemma replaceRuns_fixed inRun s :
  allChars allowedChar s = true → replaceRuns inRun s = s.
Proof.
  revert inRun. induction s as [|c s IH]; intros inRun; simpl; [done|].
  intros [Hc Hs]%andb_true_iff. rewrite Hc. f_equal. by apply IH.
Qed.

Lemma sanitizeComponent_allowed s :
  allChars allowedChar (sanitizeComponent s) = true.
Proof. apply replaceRuns_allowed. Qed.

Lemma replaceRuns_renderOpen inRun s :
  replaceRuns inRun s = renderOpen inRun (maximalRuns s).
Proof.
  revert inRun. induction s as [|c s IH]; intros inRun; [done|].
  cbn [replaceRuns maximalRuns].
  destruct (allowedChar c) eqn:Hc.
  - rewrite (IH false).
    destruct (maximalRuns s) as [|[[] r] rest]; simpl; done.
  - rewrite (IH true).
    destruct (maximalRuns s) as [|[[] r] rest], inRun; simpl; done.
Qed.

(** [maximalRuns] cuts a string into its maximal runs. *)
Lemma maximalRuns_partition s :
  runsText (maximalRuns s) = s
  ∧ Forall uniformRun (maximalRuns s)
  ∧ alternating (maximalRuns s).
Proof.
  induction s as [|c s (Htext & Huniform & Halt)]; [by repeat constructor|].
  cbn [maximalRuns].
  destruct (maximalRuns s) as [|[b r] rest] eqn:Hruns.
  - simpl in Htext. subst s. repeat split; try done.
    repeat constructor; [done|]. simpl. by rewrite bool_decide_true.
  - case_bool_decide as Hkind.
    + apply Forall_cons in Huniform as [[Hne Hr] Hrest].
      repeat split.
      * by rewrite <- Htext.
      * constructor; [|done]. split; [done|]. simpl in *.
        by rewrite bool_decide_true, Hr.
      * exact (proj1 Halt).
      * exact (proj2 Halt).
    + repeat split.
      * by rewrite <- Htext.
      * constructor; [|done]. split; [done|]. simpl.
        by rewrite bool_decide_true.
      * simpl. congruence.
      * exact (proj1 Halt).
      * exact (proj2 Halt).
Qed.

Lemma sanitizeComponent_by_runs s : sanitizeComponent s = sanitizeByRuns s.
Proof.
  unfold sanitizeComponent, sanitizeByRuns. rewrite replaceRuns_renderOpen.
  by destruct (maximalRuns s) as [|[[] r] rest].
Qed.

(** C9: the sanitizer is idempotent, [sanitize (sanitize x) = sanitize x] for
    every string [x], where the sanitizer of the code (the regular expression
    replacement) is the one of the specification: every maximal run of
    characters outside [A-Za-z0-9._-] (and the underscore) becomes a single
    underscore. *)
Theorem sanitizeComponent_idempotent (x : string) :
  sanitizeComponent (sanitizeComponent x) = sanitizeComponent x
  ∧ sanitizeComponent x = sanitizeByRuns x.
Proof.
  split.
  - apply replaceRuns_fixed, sanitizeComponent_allowed.
  - apply sanitizeComponent_by_runs.
Qed.

(** ** The loop that looks for a free name *)

Section loop.
Context {St : Type} (mk : St → string) (next : St → St).
Implicit Types (used : gset string) (st : St).

Lemma tried_next st k : tried mk next (next st) k = tried mk next st (S k).
Proof. unfold tried. by rewrite Nat.iter_succ_r. Qed.

Lemma doWhileUsed_Some fuel used st x :
  Js.doWhileUsed fuel mk next used st = Some x →
  (x ∉ used) ∧
  (∃ k, (k < fuel)%nat ∧ x = tried mk next st k
        ∧ (∀ j, (j < k)%nat → tried mk next st j ∈ used)).
Proof.
  revert st. induction fuel as [|fuel IH]; intros st; simpl; [done|].
  case_bool_decide as Hin.
  - intros (Hx & k & Hk & -> & Hbefore)%IH. split; [done|].
    exists (S k). split; [lia|]. split; [by rewrite tried_next|].
    intros [|j] Hj; [done|]. rewrite <- tried_next. apply Hbefore. lia.
  - intros [= <-]. split; [done|]. exists 0%nat.
    split; [lia|]. split; [done|]. intros j Hj. lia.
Qed.

Lemma doWhileUsed_None fuel used st :
  Js.doWhileUsed fuel mk next used st = None →
  ∀ k, (k < fuel)%nat → tried mk next st k ∈ used.
Proof.
  revert st. induction fuel as [|fuel IH]; intros st; simpl.
  - intros _ k Hk. lia.
  - case_bool_decide as Hin; [|done].
    intros Hnone [|k] Hk; [done|].
    rewrite <- tried_next. apply IH; [done|lia].
Qed.

(** With pairwise distinct tries, one more iteration than there are used
    names is enough: the loop ends. *)
Lemma doWhileUsed_total used st :
  (∀ i j, tried mk next st i = tried mk next st j → i = j) →
  is_Some (Js.doWhileUsed (iterations used) mk next used st).
Proof.
  intros Hinj.
  destruct (Js.doWhileUsed _ _ _ _ _) as [x|] eqn:Hloop; [by eexists|].
  exfalso.
  pose proof (doWhileUsed_None _ _ _ Hloop) as Hall.
  set (names := tried mk next st <$> seq 0 (iterations used)).
  assert (NoDup names) as Hnodup.
  { apply NoDup_fmap_2_strong; [|apply NoDup_seq]. intros i j _ _. apply Hinj. }
  assert (list_to_set names ⊆ used) as Hsub.
  { intros x. rewrite elem_of_list_to_set. unfold names.
    intros (k & -> & Hk%elem_of_seq)%list_elem_of_fmap. apply Hall. lia. }
  apply subseteq_size in Hsub.
  rewrite size_list_to_set in Hsub by done.
  unfold names, iterations in Hsub. rewrite length_fmap, length_seq in Hsub. lia.
Qed.

End loop.

(** ** [makeUnique] *)

Lemma lastIndexOfNat_None s a :
  Js.lastIndexOfNat s a = None → allChars (notChar a) s = true.
Proof.
  induction s as [|c s IH]; simpl; [done|].
  destruct (Js.lastIndexOfNat s a); [done|].
  case_bool_decide as Hc; [done|]. intros _.
  rewrite IH by done. unfold notChar, Js.isChar.
  by rewrite bool_decide_false.
Qed.

Lemma lastIndexOfNat_Some s a i :
  Js.lastIndexOfNat s a = Some i → allChars (notChar a) (Js.drop (S i) s) = true.
Proof.
  revert i. induction s as [|c s IH]; intros i; simpl; [done|].
  destruct (Js.lastIndexOfNat s a) as [j|] eqn:Hs.
  - intros [= <-]. by apply IH.
  - case_bool_decide; [|done]. intros [= <-].
    destruct s; [done|]. by apply lastIndexOfNat_None.
Qed.

Lemma take_all s : Js.take (String.length s) s = s.
Proof. induction s as [|c s IH]; simpl; [done|]. by rewrite IH. Qed.

Lemma drop_all s : Js.drop (String.length s) s = "".
Proof. induction s as [|c s IH]; simpl; done. Qed.

Lemma lastIndexOf_cases s a :
  (Js.lastIndexOf s a = -1 ∧ Js.lastIndexOfNat s a = None)
  ∨ (∃ i, Js.lastIndexOf s a = Z.of_nat i ∧ Js.lastIndexOfNat s a = Some i).
Proof.
  unfold Js.lastIndexOf. destruct (Js.lastIndexOfNat s a) as [i|]; eauto.
Qed.

Lemma substring_0_nat s (i : nat) : Js.substring s 0 (Z.of_nat i) = Js.take i s.
Proof.
  unfold Js.substring. rewrite Nat2Z.id. change (Z.to_nat 0) with 0%nat.
  by rewrite Nat.max_r, Nat.min_l, Nat.sub_0_r by lia.
Qed.

Lemma substring_0_succ s (i : nat) :
  Js.substring s 0 (Z.of_nat i + 1) = Js.take (S i) s.
Proof. replace (Z.of_nat i + 1) with (Z.of_nat (S i)) by lia. apply substring_0_nat. Qed.

Lemma substringFrom_nat s (i : nat) : Js.substringFrom s (Z.of_nat i) = Js.drop i s.
Proof. unfold Js.substringFrom. by rewrite Nat2Z.id. Qed.

Lemma substringFrom_succ s (i : nat) :
  Js.substringFrom s (Z.of_nat i + 1) = Js.drop (S i) s.
Proof. replace (Z.of_nat i + 1) with (Z.of_nat (S i)) by lia. apply substringFrom_nat. Qed.

(** [makeUnique] cuts the file name at two places, the second one inside
    the part that has no slash, and tries the counters 1, 2, ... between
    the pieces. *)
Lemma makeUnique_unfold fileName used :
  ∃ n m,
    allChars (notChar "/") (Js.drop n fileName) = true ∧
    makeUnique fileName used =
      Js.doWhileUsed (iterations used)
        (λ counter : nat,
           Js.take n fileName +:+ Js.take m (Js.drop n fileName) +:+ "_"
           +:+ Js.numberToString counter +:+ Js.drop m (Js.drop n fileName))
        S used 1%nat.
Proof.
  unfold makeUnique. cbv zeta.
  destruct (lastIndexOf_cases fileName "/") as [[Hz Hslash]|(i & Hz & Hslash)];
    rewrite !Hz.
  - rewrite !(bool_decide_false (-1 ≠ -1)) by lia.
    pose proof (lastIndexOfNat_None _ _ Hslash) as Hbase.
    destruct (lastIndexOf_cases fileName ".") as [[Hz' Hdot]|(j & Hz' & Hdot)];
      rewrite !Hz'.
    + rewrite !(bool_decide_false (-1 ≠ -1)) by lia.
      exists 0%nat, (String.length fileName). split; [done|].
      change (Js.drop 0 fileName) with fileName.
      by rewrite take_all, drop_all.
    + rewrite !bool_decide_true by lia. exists 0%nat, j. split; [done|].
      by rewrite substring_0_nat, substringFrom_nat.
  - rewrite !bool_decide_true by lia.
    rewrite substring_0_succ, substringFrom_succ.
    pose proof (lastIndexOfNat_Some _ _ _ Hslash) as Hbase.
    destruct (lastIndexOf_cases (Js.drop (S i) fileName) ".")
      as [[Hz' Hdot]|(j & Hz' & Hdot)]; rewrite !Hz'.
    + rewrite !(bool_decide_false (-1 ≠ -1)) by lia.
      exists (S i), (String.length (Js.drop (S i) fileName)). split; [done|].
      by rewrite take_all, drop_all.
    + rewrite !bool_decide_true by lia. exists (S i), j. split; [done|].
      by rewrite substring_0_nat, substringFrom_nat.
Qed.

Lemma iter_succ_from (k n : nat) : Nat.iter k S n = (k + n)%nat.
Proof. induction k as [|k IH]; simpl; [done|]. by rewrite IH. Qed.

(** The names [makeUnique] tries are pairwise distinct. *)
Lemma counter_names_distinct (a b e : string) (i j : nat) :
  tried (λ counter : nat, a +:+ b +:+ "_" +:+ Js.numberToString counter +:+ e)
    S 1%nat i
  = tried (λ counter : nat, a +:+ b +:+ "_" +:+ Js.numberToString counter +:+ e)
    S 1%nat j →
  i = j.
Proof.
  unfold tried. rewrite !iter_succ_from. intros Heq.
  do 3 apply String.app_inj in Heq.
  apply app_inj_r in Heq. apply (inj pretty) in Heq. lia.
Qed.

(** The loop of [makeUnique] ends, on a name that is not used. *)
Lemma makeUnique_total fileName used :
  ∃ r, makeUnique fileName used = Some r ∧ r ∉ used.
Proof.
  destruct (makeUnique_unfold fileName used) as (n & m & _ & ->).
  lazymatch goal with
  | |- ∃ r, Js.doWhileUsed _ ?mk ?next ?u ?st = Some r ∧ _ =>
      destruct (doWhileUsed_total mk next u st) as [r Hr];
        [intros i j; apply counter_names_distinct|]
  end.
  exists r. split; [done|]. by apply doWhileUsed_Some in Hr as [? _].
Qed.

(** ** [getUniqueFileName] *)

(** A call returns the candidate when it is free, and what [makeUnique]
    makes of it otherwise; the path is added to the set. *)
Lemma getUniqueFileName_cases title lang messageIndex used useDir :
  ∃ p, getUniqueFileName title lang messageIndex used useDir
         = Some (p, {[ p ]} ∪ used)
       ∧ (p ∉ used)
       ∧ (p = candidatePath title lang messageIndex useDir
          ∨ (candidatePath title lang messageIndex useDir ∈ used
             ∧ makeUnique (candidatePath title lang messageIndex useDir) used
               = Some p)).
Proof.
  unfold getUniqueFileName. cbv zeta.
  fold (candidatePath title lang messageIndex useDir).
  case_bool_decide as Hin.
  - destruct (makeUnique_total
                (candidatePath title lang messageIndex useDir) used)
      as (r & Hr & Hfresh).
    exists r. rewrite Hr. auto.
  - eexists. split; [reflexivity|]. auto.
Qed.

(** A call returns a name that was not used, and adds it to the set. *)
Lemma getUniqueFileName_fresh title lang messageIndex used useDir :
  ∃ p, getUniqueFileName title lang messageIndex used useDir
         = Some (p, {[ p ]} ∪ used)
       ∧ p ∉ used.
Proof.
  destruct (getUniqueFileName_cases title lang messageIndex used useDir)
    as (p & Hp & Hfresh & _).
  by exists p.
Qed.

(** A run returns as many names as there are artifacts; they are pairwise
    distinct and none of them was used before the run; the set of used names
    has grown by them. *)
Lemma assignAll_fresh useDir artifacts used :
  ∃ ps, assignAll useDir artifacts used = Some (ps, list_to_set ps ∪ used)
        ∧ length ps = length artifacts
        ∧ NoDup ps
        ∧ (∀ p, p ∈ ps → p ∉ used).
Proof.
  revert used. induction artifacts as [|a rest IH]; intros used.
  - exists []. simpl. repeat split; try done.
    + by rewrite (left_id_L ∅ (∪)).
    + constructor.
    + intros p Hp. by apply not_elem_of_nil in Hp.
  - destruct (getUniqueFileName_fresh (rawTitle a) (language a)
                (ordinalIndex a) used useDir) as (p & Hp & Hfresh).
    destruct (IH ({[ p ]} ∪ used)) as (ps & Hps & Hlen & Hnodup & Hnew).
    exists (p :: ps). simpl. rewrite Hp. simpl. rewrite Hps. simpl.
    repeat split.
    + by rewrite (comm_L (∪) {[ p ]} (list_to_set ps)), <- (assoc_L (∪)).
    + by rewrite Hlen.
    + constructor; [|done]. intros Hin. apply Hnew in Hin. set_solver.
    + intros q [->|Hq]%elem_of_cons; [done|]. apply Hnew in Hq. set_solver.
Qed.

(** C1: all paths that a run returns through [getUniqueFileName] on one
    shared set of used names are pairwise distinct, whatever the set holds
    at the start, and each call returns a path that is in the set right
    after the call (every call does return). *)
Theorem getUniqueFileName_unique_paths (useDir : bool)
    (artifacts : list ArtifactRef) (usedNames : gset string) :
  (∀ title lang messageIndex,
     ∃ p usedNames',
       getUniqueFileName title lang messageIndex usedNames useDir
         = Some (p, usedNames')
       ∧ p ∈ usedNames' ∧ usedNames ⊆ usedNames')
  ∧ (∃ ps usedNames',
       assignAll useDir artifacts usedNames = Some (ps, usedNames')
       ∧ length ps = length artifacts
       ∧ NoDup ps
       ∧ (∀ p, p ∈ ps → p ∈ usedNames')).
Proof.
  split.
  - intros title lang messageIndex.
    destruct (getUniqueFileName_fresh title lang messageIndex usedNames useDir)
      as (p & -> & _).
    exists p, ({[ p ]} ∪ usedNames). split; [done|]. set_solver.
  - destruct (assignAll_fresh useDir artifacts usedNames)
      as (ps & -> & Hlen & Hnodup & _).
    exists ps, (list_to_set ps ∪ usedNames). repeat split; try done.
    intros p Hp. set_solver.
Qed.

(** C5: assigning a path is deterministic. Two calls with the same title,
    language, index and policy, on sets of used names with the same
    contents, return the same path (and leave sets with the same contents);
    so do two runs over the same artifacts; and every run that starts from
    the empty set returns the same sequence of paths. *)
Theorem getUniqueFileName_deterministic (useDir : bool) (title : string)
    (lang : Js.value) (messageIndex : nat) (artifacts : list ArtifactRef)
    (used1 used2 : gset string) :
  (∀ x, x ∈ used1 ↔ x ∈ used2) →
  (∃ p u1 u2,
     getUniqueFileName title lang messageIndex used1 useDir = Some (p, u1)
     ∧ getUniqueFileName title lang messageIndex used2 useDir = Some (p, u2)
     ∧ (∀ x, x ∈ u1 ↔ x ∈ u2))
  ∧ (∃ ps u1 u2,
       assignAll useDir artifacts used1 = Some (ps, u1)
       ∧ assignAll useDir artifacts used2 = Some (ps, u2)
       ∧ (∀ x, x ∈ u1 ↔ x ∈ u2))
  ∧ (∃ ps,
       ∀ run1 run2,
         run1 = assignAll useDir artifacts ∅ →
         run2 = assignAll useDir artifacts ∅ →
         fst <$> run1 = Some ps ∧ fst <$> run2 = Some ps).
Proof.
  intros Hsame. apply set_eq in Hsame. subst used2.
  split; [|split].
  - destruct (getUniqueFileName_fresh title lang messageIndex used1 useDir)
      as (p & Hp & _).
    exists p, ({[ p ]} ∪ used1), ({[ p ]} ∪ used1). done.
  - destruct (assignAll_fresh useDir artifacts used1) as (ps & Hps & _).
    exists ps, (list_to_set ps ∪ used1), (list_to_set ps ∪ used1). done.
  - destruct (assignAll_fresh useDir artifacts ∅) as (ps & Hps & _).
    exists ps. intros run1 run2 -> ->. by rewrite Hps.
Qed.

(** Two sets with the same contents, built in a different order. *)
Lemma getUniqueFileName_deterministic_witness :
  (∀ x : string,
     x ∈ ({[ "2_test-file.js" ]} ∪ {[ "notes.txt" ]} : gset string)
     ↔ x ∈ ({[ "notes.txt" ]} ∪ {[ "2_test-file.js" ]} : gset string))
  ∧ ∃ p u1 u2,
      getUniqueFileName "test-file" (Js.Str "javascript") 1
        ({[ "2_test-file.js" ]} ∪ {[ "notes.txt" ]}) false = Some (p, u1)
      ∧ getUniqueFileName "test-file" (Js.Str "javascript") 1
          ({[ "notes.txt" ]} ∪ {[ "2_test-file.js" ]}) false = Some (p, u2)
      ∧ (∀ x, x ∈ u1 ↔ x ∈ u2).
Proof.
  assert (∀ x : string,
     x ∈ ({[ "2_test-file.js" ]} ∪ {[ "notes.txt" ]} : gset string)
     ↔ x ∈ ({[ "notes.txt" ]} ∪ {[ "2_test-file.js" ]} : gset string)) as Hsame.
  { intros x. rewrite !elem_of_union. tauto. }
  split; [exact Hsame|].
  exact (proj1 (getUniqueFileName_deterministic false "test-file"
                  (Js.Str "javascript") 1 [] _ _ Hsame)).
Defined.

(** ** Decimal numbers *)

Lemma digit_of_remainder (x : N) : Js.isDigit (pretty_N_char x) = true.
Proof. unfold pretty_N_char. repeat case_match; reflexivity. Qed.

Lemma pretty_N_go_digits (x : N) (acc : string) :
  allChars Js.isDigit acc = true → allChars Js.isDigit (pretty_N_go x acc) = true.
Proof.
  revert acc. induction (N.lt_wf_0 x) as [x _ IH]. intros acc Hacc.
  destruct (decide (x = 0)%N) as [->|Hpos]; [exact Hacc|].
  rewrite pretty_N_go_step by lia.
  apply IH; [apply N.div_lt; lia|].
  simpl. by rewrite digit_of_remainder.
Qed.

Lemma numberToString_digits (n : nat) :
  allChars Js.isDigit (Js.numberToString n) = true.
Proof.
  unfold Js.numberToString, pretty, pretty_nat, pretty, pretty_N.
  case_decide; [reflexivity|]. by apply pretty_N_go_digits.
Qed.

Lemma digit_allowed c : Js.isDigit c = true → allowedChar c = true.
Proof.
  unfold allowedChar, Js.isWordChar, Js.isDigit. cbv zeta. by intros ->.
Qed.

Lemma allowed_not_slash c : allowedChar c = true → notChar "/" c = true.
Proof.
  unfold notChar, Js.isChar. case_bool_decide as Hc; [|done]. by rewrite Hc.
Qed.

Lemma allowed_not_backslash c : allowedChar c = true → notChar backslash c = true.
Proof.
  unfold notChar, Js.isChar. case_bool_decide as Hc; [|done]. by rewrite Hc.
Qed.

Lemma numberToString_allowed (n : nat) :
  allChars allowedChar (Js.numberToString n) = true.
Proof.
  eapply allChars_impl; [apply digit_allowed|apply numberToString_digits].
Qed.

Lemma numberToString_no_slash (n : nat) :
  allChars (notChar "/") (Js.numberToString n) = true.
Proof.
  eapply allChars_impl; [apply allowed_not_slash|apply numberToString_allowed].
Qed.

(** ** Segments *)

Section split.
Context (sep : ascii → bool).

Lemma split_snoc s : ∃ init lst, Js.split sep s = init ++ [lst].
Proof.
  induction s as [|c s (init & lst & IH)]; simpl.
  - by exists [], "".
  - destruct (sep c).
    + exists ("" :: init), lst. by rewrite IH.
    + rewrite IH. destruct init as [|seg init]; simpl.
      * by exists [], (String c lst).
      * by exists (String c seg :: init), lst.
Qed.

Lemma split_free x :
  allChars (λ c, negb (sep c)) x = true → Js.split sep x = [x].
Proof.
  induction x as [|c x IH]; simpl; [done|].
  intros [Hc Hx]%andb_true_iff. apply negb_true_iff in Hc.
  by rewrite Hc, IH.
Qed.

(** Appending text without separator only changes the last segment. *)
Lemma split_app_free s x init lst :
  allChars (λ c, negb (sep c)) x = true →
  Js.split sep s = init ++ [lst] →
  Js.split sep (s +:+ x) = init ++ [lst +:+ x].
Proof.
  intros Hx. revert init lst. induction s as [|c s IH]; intros init lst.
  - simpl. intros Hs. destruct init as [|? [|? ?]]; simplify_eq/=.
    by apply split_free.
  - change (String c s +:+ x) with (String c (s +:+ x)). simpl.
    destruct (split_snoc s) as (init' & lst' & Hs).
    rewrite (IH _ _ Hs), Hs.
    destruct (sep c).
    + destruct init as [|i0 init]; simpl.
      * intros [= _ Hnil]. by destruct init'.
      * intros [= <- Heq]. apply app_inj_tail in Heq as [-> ->]. done.
    + destruct init' as [|seg init']; simpl.
      * destruct init as [|i0 [|? ?]]; intros ?; simplify_eq/=. done.
      * destruct init as [|i0 init]; simpl.
        -- intros [= _ Hnil]. by destruct init'.
        -- intros [= <- Heq]. apply app_inj_tail in Heq as [-> ->]. done.
Qed.

End split.

Lemma directorySegments_app_free a x :
  allChars (notChar "/") x = true →
  directorySegments (a +:+ x) = directorySegments a.
Proof.
  intros Hx. unfold directorySegments, segments.
  destruct (split_snoc (Js.isChar "/") a) as (init & lst & Ha).
  rewrite (split_app_free _ _ _ _ _ Hx Ha), Ha.
  by rewrite !removelast_last.
Qed.

(** C8: when the candidate has directory structure, making it unique
    changes the last segment (leaf name and extension) only: the directory
    segments of the path that [makeUnique] returns are those of the
    candidate, unchanged and in the same order. [makeUnique] always returns,
    with a path that is not used; so for "src/utils/helper.js". *)
Theorem makeUnique_keeps_directories (fileName : string) (usedNames : gset string) :
  (∃ r, makeUnique fileName usedNames = Some r
        ∧ (r ∉ usedNames)
        ∧ directorySegments r = directorySegments fileName)
  ∧ makeUnique "src/utils/helper.js" {[ "src/utils/helper.js" ]}
    = Some "src/utils/helper_1.js"
  ∧ directorySegments "src/utils/helper_1.js" = ["src"; "utils"].
Proof.
  split; [|split; vm_compute; reflexivity].
  destruct (makeUnique_total fileName usedNames) as (r & Hr & Hfresh).
  exists r. split; [done|]. split; [done|].
  destruct (makeUnique_unfold fileName usedNames) as (n & m & Hbase & Hloop).
  rewrite Hloop in Hr. apply doWhileUsed_Some in Hr as (_ & k & _ & -> & _).
  unfold tried.
  trans (directorySegments (Js.take n fileName +:+ Js.drop n fileName));
    [|by rewrite take_drop].
  rewrite !directorySegments_app_free; [done|done|].
  rewrite !allChars_app.
  rewrite (allChars_take _ m _ Hbase), (allChars_drop _ m _ Hbase).
  rewrite numberToString_no_slash. reflexivity.
Qed.

(** ** The characters of a returned path *)

Lemma allowed_pathChar c : allowedChar c = true → pathChar c = true.
Proof. unfold pathChar. by intros ->. Qed.

Lemma pathChar_not_backslash c : pathChar c = true → notChar backslash c = true.
Proof.
  unfold notChar, Js.isChar. case_bool_decide as Hc; [|done]. by rewrite Hc.
Qed.

Lemma languageTable_allowed :
  Forall (λ entry, allChars allowedChar entry.2 = true) languageTable.
Proof. unfold languageTable. repeat (constructor; [reflexivity|]). constructor. Qed.

Lemma getFileExtension_allowed lang :
  allChars allowedChar (getFileExtension lang) = true.
Proof.
  destruct lang as [| |[|c s]]; try reflexivity.
  unfold getFileExtension.
  destruct (languageToExt !! _) as [ext|] eqn:Hext; [|reflexivity].
  apply elem_of_list_to_map_2 in Hext.
  pose proof languageTable_allowed as Htable.
  rewrite Forall_forall in Htable. exact (Htable _ Hext).
Qed.

Lemma join_pathChar parts :
  Forall (λ part, allChars allowedChar part = true) parts →
  allChars pathChar (Js.join "/" parts) = true.
Proof.
  induction 1 as [|part parts Hpart _ IH]; [done|].
  apply (allChars_impl _ _ _ allowed_pathChar) in Hpart.
  destruct parts as [|part' parts]; [done|].
  change (Js.join "/" (part :: part' :: parts))
    with (part +:+ "/" +:+ Js.join "/" (part' :: parts)).
  by rewrite !allChars_app, Hpart, IH.
Qed.

Lemma sanitizedPath_pathChar title :
  allChars pathChar (sanitizedPath (sanitizePathComponents title)) = true.
Proof.
  unfold sanitizePathComponents. simpl. apply join_pathChar.
  apply Forall_forall. intros part (x & <- & _)%list_elem_of_In%in_map_iff.
  apply sanitizeComponent_allowed.
Qed.

Lemma sanitizedFilename_allowed title :
  allChars allowedChar (sanitizedFilename (sanitizePathComponents title)) = true.
Proof. apply sanitizeComponent_allowed. Qed.

(** In Flat mode the candidate is made of allowed characters, and has an
    underscore. *)
Lemma constructFilePath_flat_allowed path filename extension messageIndex :
  allChars allowedChar filename = true →
  allChars allowedChar extension = true →
  allChars allowedChar
    (constructFilePath path filename extension messageIndex false) = true
  ∧ allChars (notChar "_")
      (constructFilePath path filename extension messageIndex false) = false.
Proof.
  intros Hname Hext. unfold constructFilePath.
  rewrite !allChars_app, Hname, Hext, numberToString_allowed.
  split; [reflexivity|].
  change (allChars (notChar "_") "_") with false. by rewrite andb_false_r.
Qed.

Lemma constructFilePath_pathChar path filename extension messageIndex useDir :
  allChars pathChar path = true →
  allChars allowedChar filename = true →
  allChars allowedChar extension = true →
  allChars pathChar
    (constructFilePath path filename extension messageIndex useDir) = true.
Proof.
  intros Hpath Hname Hext.
  destruct useDir.
  - apply (allChars_impl _ _ _ allowed_pathChar) in Hname, Hext.
    unfold constructFilePath. destruct (truthy path).
    + by rewrite !allChars_app, Hpath, Hname, Hext.
    + by rewrite !allChars_app, Hname, Hext.
  - eapply allChars_impl; [apply allowed_pathChar|].
    by apply constructFilePath_flat_allowed.
Qed.

(** [makeUnique] adds an underscore and digits, nothing else. *)
Lemma makeUnique_chars (P : ascii → bool) fileName used r :
  (∀ c, allowedChar c = true → P c = true) →
  allChars P fileName = true →
  makeUnique fileName used = Some r →
  allChars P r = true ∧ allChars (notChar "_") r = false.
Proof.
  intros HP Hfile Hr.
  destruct (makeUnique_unfold fileName used) as (n & m & _ & Hloop).
  rewrite Hloop in Hr. apply doWhileUsed_Some in Hr as (_ & k & _ & -> & _).
  unfold tried. rewrite !allChars_app. split.
  - rewrite !allChars_take, !allChars_drop by (by rewrite ?allChars_drop).
    rewrite (allChars_impl _ _ _ HP (numberToString_allowed _)).
    simpl. rewrite HP; reflexivity.
  - change (allChars (notChar "_") "_") with false. by rewrite !andb_false_r.
Qed.

Lemma candidatePath_pathChar title lang messageIndex useDir :
  allChars pathChar (candidatePath title lang messageIndex useDir) = true.
Proof.
  apply constructFilePath_pathChar;
    auto using sanitizedPath_pathChar, sanitizedFilename_allowed,
      getFileExtension_allowed.
Qed.

Lemma candidatePath_flat title lang messageIndex :
  allChars allowedChar (candidatePath title lang messageIndex false) = true
  ∧ allChars (notChar "_") (candidatePath title lang messageIndex false) = false.
Proof.
  apply constructFilePath_flat_allowed;
    auto using sanitizedFilename_allowed, getFileExtension_allowed.
Qed.

Lemma allowed_no_leading_slash p :
  allChars allowedChar p = true → beginsWith "/" p = false.
Proof.
  destruct p as [|c p]; simpl; [done|].
  intros [Hc _]%andb_true_iff. case_bool_decide as Hslash; [|done].
  by rewrite Hslash in Hc.
Qed.

(** A path of allowed characters that has an underscore is safe. *)
Lemma allowed_safePath p :
  allChars allowedChar p = true →
  allChars (notChar "_") p = false →
  safePath p.
Proof.
  intros Hp Hunderscore. split; [|split].
  - by apply (allChars_impl _ _ _ allowed_not_backslash).
  - by apply allowed_no_leading_slash.
  - unfold segments. rewrite split_free.
    + intros Hdots%list_elem_of_singleton. subst p.
      vm_compute in Hunderscore. discriminate Hunderscore.
    + by apply (allChars_impl _ _ _ allowed_not_slash).
Qed.

(** C4, as it is stated, does not hold: in directory mode the title [../x]
    gets the path [../x.txt], which has a [..] segment. *)
Lemma dot_segment_survives :
  ¬ (∀ title lang messageIndex usedNames useDir p usedNames',
       getUniqueFileName title lang messageIndex usedNames useDir
         = Some (p, usedNames') →
       safePath p).
Proof.
  intros Hsafe.
  assert (getUniqueFileName "../x" Js.Null 0 ∅ true
          = Some ("../x.txt", {[ "../x.txt" ]} ∪ ∅)) as Hcall
    by (vm_compute; reflexivity).
  apply Hsafe in Hcall as (_ & _ & Hdots).
  apply Hdots. vm_compute. apply elem_of_cons. by left.
Qed.

(** ** The extension resolver *)

Lemma lowerChar_idempotent c : Js.lowerChar (Js.lowerChar c) = Js.lowerChar c.
Proof. destruct c as [[] [] [] [] [] [] [] []]; reflexivity. Qed.

Lemma toLowerCase_idempotent s : Js.toLowerCase (Js.toLowerCase s) = Js.toLowerCase s.
Proof.
  induction s as [|c s IH]; simpl; [done|].
  by rewrite lowerChar_idempotent, IH.
Qed.

(** The lookup only sees the lower-cased tag. *)
Lemma getFileExtension_lookup s :
  getFileExtension (Js.Str s) = default ".txt" (languageToExt !! Js.toLowerCase s).
Proof. by destruct s. Qed.

Lemma languageTable_keys : NoDup languageTable.*1.
Proof. apply (bool_decide_unpack _). by vm_compute. Qed.

(** C6: the extension of a language tag does not depend on the case of the
    tag: every spelling of a tag of the table gets the extension of the
    table (PYTHON gets .py, JAVASCRIPT .js, CsS .css); a tag that is null,
    undefined, empty or not in the table gets .txt; the function is total
    and every result is a dot followed by at least one character. *)
Theorem getFileExtension_case_insensitive_total :
  getFileExtension (Js.Str "PYTHON") = ".py"
  ∧ getFileExtension (Js.Str "JAVASCRIPT") = ".js"
  ∧ getFileExtension (Js.Str "CsS") = ".css"
  ∧ (∀ s, getFileExtension (Js.Str (Js.toLowerCase s))
          = getFileExtension (Js.Str s))
  ∧ (∀ s t, Js.toLowerCase s = Js.toLowerCase t →
            getFileExtension (Js.Str s) = getFileExtension (Js.Str t))
  ∧ (∀ tag ext s, (tag, ext) ∈ languageTable → Js.toLowerCase s = tag →
                  getFileExtension (Js.Str s) = ext)
  ∧ getFileExtension Js.Null = ".txt"
  ∧ getFileExtension Js.Undefined = ".txt"
  ∧ getFileExtension (Js.Str "") = ".txt"
  ∧ getFileExtension (Js.Str "unknown") = ".txt"
  ∧ (∀ s, Js.toLowerCase s ∉ languageTable.*1 →
          getFileExtension (Js.Str s) = ".txt")
  ∧ (∀ lang, ∃ c rest, getFileExtension lang = String "." (String c rest)).
Proof.
  pose proof languageTable_keys as Hnodup.
  do 3 (split; [vm_compute; reflexivity|]).
  split; [|split; [|split; [|do 4 (split; [vm_compute; reflexivity|]); split]]].
  - intros s. by rewrite !getFileExtension_lookup, toLowerCase_idempotent.
  - intros s t Hst. by rewrite !getFileExtension_lookup, Hst.
  - intros tag ext s Hentry <-. rewrite getFileExtension_lookup.
    apply (elem_of_list_to_map_1 (M := gmap string)) in Hentry; [|done].
    unfold languageToExt. by rewrite Hentry.
  - intros s Hs. rewrite getFileExtension_lookup.
    apply (not_elem_of_list_to_map_1 (M := gmap string)) in Hs.
    unfold languageToExt. by rewrite Hs.
  - intros lang.
    assert (∀ ext, (∃ tag, (tag, ext) ∈ languageTable) ∨ ext = ".txt" →
                   ∃ c rest, ext = String "." (String c rest)) as Hshape.
    { intros ext [[tag Hentry]| ->]; [|by eexists _, _].
      assert (Forall (λ entry, ∃ c rest, entry.2 = String "." (String c rest))
                languageTable) as Htable.
      { unfold languageTable. repeat (constructor; [by eexists _, _|]).
        constructor. }
      rewrite Forall_forall in Htable. exact (Htable _ Hentry). }
    apply Hshape.
    destruct lang as [| |s]; [by right..|].
    rewrite getFileExtension_lookup.
    destruct (languageToExt !! _) as [ext|] eqn:Hext; [|by right].
    left. eexists. by apply elem_of_list_to_map_2 in Hext.
Qed.

(** ** The path composer *)

Lemma leaf_sanitized (parts : list string) :
  default "" (last (map sanitizeComponent parts))
  = sanitizeComponent (default "" (last parts)).
Proof.
  change (map sanitizeComponent parts) with (sanitizeComponent <$> parts).
  rewrite fmap_last. by destruct (last parts).
Qed.

(** C3: in Flat mode an index [i] gives the prefix [i+1] and an underscore
    before the sanitized leaf name (index 0 gives [1_]), in the composer of
    the specification and in [constructFilePath] alike; without an index the
    composer leaves out the prefix and its underscore; a suffix goes between
    leaf name and extension. So [test], [.js] with index 5 is [6_test.js],
    without index [test.js], and with index 3 and suffix [_modified]
    [4_test_modified.js]. *)
Theorem compose_flat_index_prefix :
  (∀ title extension (i : nat) suffix,
     PathComposer.compose title extension (Some i) suffix PathComposer.Flat
     = Js.numberToString (i + 1) +:+ "_"
       +:+ sanitizeComponent (default "" (last (Js.split isSeparator title)))
       +:+ default "" suffix +:+ extension)
  ∧ (∀ title extension suffix,
       PathComposer.compose title extension None suffix PathComposer.Flat
       = sanitizeComponent (default "" (last (Js.split isSeparator title)))
         +:+ default "" suffix +:+ extension)
  ∧ (∀ path filename extension (i : nat),
       constructFilePath path filename extension i false
       = Js.numberToString (i + 1) +:+ "_" +:+ filename +:+ extension)
  ∧ (∀ extension suffix,
       PathComposer.compose "x" extension (Some 0%nat) suffix PathComposer.Flat
       = "1_" +:+ "x" +:+ default "" suffix +:+ extension)
  ∧ PathComposer.compose "test" ".js" (Some 5%nat) None PathComposer.Flat
    = "6_test.js"
  ∧ PathComposer.compose "test" ".js" None None PathComposer.Flat = "test.js"
  ∧ PathComposer.compose "test" ".js" (Some 3%nat) (Some "_modified")
      PathComposer.Flat
    = "4_test_modified.js"
  ∧ PathComposer.compose "test" ".js" None (Some "_modified") PathComposer.Flat
    = "test_modified.js".
Proof.
  split; [|split; [|split; [|split]]].
  - intros title extension i suffix. unfold PathComposer.compose. cbv zeta.
    rewrite leaf_sanitized. unfold PathComposer.indexPrefix.
    generalize (Js.numberToString (i + 1)). intros prefix.
    induction prefix as [|c prefix IH]; [done|].
    change (String c prefix +:+ ?x) with (String c (prefix +:+ x)).
    by rewrite <- IH.
  - intros title extension suffix. unfold PathComposer.compose. cbv zeta.
    by rewrite leaf_sanitized.
  - done.
  - done.
  - repeat split; vm_compute; reflexivity.
Qed.

(** ** Empty leaf names *)

Lemma split_ends_with_separator (sep : ascii → bool) (c : ascii) (s : string) :
  sep c = true →
  Js.split sep (s +:+ String c "") = Js.split sep s ++ [""].
Proof.
  intros Hc. induction s as [|a s IH].
  - simpl. change ("" +:+ String c "") with (String c ""). simpl. by rewrite Hc.
  - change (String a s +:+ String c "") with (String a (s +:+ String c "")).
    simpl. rewrite IH. destruct (sep a); [done|].
    destruct (split_snoc sep s) as ([|seg init] & lst & ->); done.
Qed.



(** ** Directory mode *)

(** C10, as it is stated, does not hold: with [src_utils_helper.js] used,
    the title [src/utils/helper] with index 2 in directory mode does not get
    [3_src_utils_helper_*.js]. *)
Lemma directory_mode_no_index_on_collision :
  fst <$> getUniqueFileName "src/utils/helper" (Js.Str "javascript") 2
            {[ "src_utils_helper.js" ]} true
  ≠ Some "3_src_utils_helper_*.js".
Proof. vm_compute. discriminate. Qed.

(** C10, amended: in directory mode [getUniqueFileName] keeps the directory
    segments apart by slashes and never puts the index before the name,
    whether the candidate is used or not: the result does not depend on the
    index. With [src_utils_helper.js] used, [src/utils/helper] gets
    [src/utils/helper.js]; with [src/utils/helper.js] used as well, it gets
    [src/utils/helper_1.js], the counter of [makeUnique] before the
    extension. *)
Theorem directory_mode_ignores_index :
  (∀ title lang (i j : nat) usedNames,
     getUniqueFileName title lang i usedNames true
     = getUniqueFileName title lang j usedNames true)
  ∧ fst <$> getUniqueFileName "src/utils/helper" (Js.Str "javascript") 2
              {[ "src_utils_helper.js" ]} true
    = Some "src/utils/helper.js"
  ∧ fst <$> getUniqueFileName "src/utils/helper" (Js.Str "javascript") 2
              ({[ "src_utils_helper.js" ]} ∪ {[ "src/utils/helper.js" ]}) true
    = Some "src/utils/helper_1.js".
Proof.
  split; [|split; vm_compute; reflexivity].
  intros title lang i j usedNames. reflexivity.
Qed.

(** ** The alternative version of [makeUnique] *)

(** What the pipeline of [makeUniqueWithArrays] builds: [pipe] applies its
    last function first, and the function named [prependPath] appends. *)
Lemma makeUniqueName_shape (uniqueSuffix ext basePath baseFilename : string) :
  FP.pipe [FP.append "_" uniqueSuffix; FP.append "." ext; FP.append "/" basePath]
    baseFilename
  = ((baseFilename +:+ "/" +:+ basePath) +:+ "." +:+ ext) +:+ "_" +:+ uniqueSuffix.
Proof. reflexivity. Qed.

Lemma star_suffix_length (k : nat) :
  String.length (Nat.iter k (λ uniqueSuffix, uniqueSuffix +:+ "*") "*") = S k.
Proof.
  induction k as [|k IH]; [done|].
  simpl. rewrite app_length, IH. simpl. lia.
Qed.

(** The loop of [makeUniqueWithArrays] ends as well, on a name that is not
    used: the names it tries differ in the length of the marker. *)
Lemma makeUniqueWithArrays_total fileName used :
  ∃ r, makeUniqueWithArrays fileName used = Some r ∧ r ∉ used.
Proof.
  unfold makeUniqueWithArrays, Js.pop.
  destruct (1 <? length _)%nat;
    (lazymatch goal with
     | |- ∃ r, Js.doWhileUsed _ ?mk ?next ?u ?st = Some r ∧ _ =>
         destruct (doWhileUsed_total mk next u st) as [r Hr];
           [|exists r; split; [done|by apply doWhileUsed_Some in Hr as [? _]]]
     end);
    intros i j Heq; unfold tried in Heq;
    rewrite !makeUniqueName_shape in Heq;
    do 2 apply String.app_inj in Heq;
    apply (f_equal String.length) in Heq;
    rewrite !star_suffix_length in Heq; lia.
Qed.

(** C2: the code does not do what the claim says. [makeUniqueWithArrays]
    puts the base path after the base name and the marker after the
    extension: for [2_test-file.js], used, it returns [2_test-file/.js_*]
    and not [2_test-file_*.js]; when that is used as well,
    [2_test-file/.js_**]; and a directory moves behind the leaf name. *)
Theorem makeUniqueWithArrays_misplaces_marker :
  makeUniqueWithArrays "2_test-file.js" {[ "2_test-file.js" ]}
  = Some "2_test-file/.js_*"
  ∧ makeUniqueWithArrays "2_test-file.js"
      ({[ "2_test-file.js" ]} ∪ {[ "2_test-file_*.js" ]})
    = Some "2_test-file/.js_*"
  ∧ makeUniqueWithArrays "2_test-file.js"
      ({[ "2_test-file.js" ]} ∪ {[ "2_test-file/.js_*" ]})
    = Some "2_test-file/.js_**"
  ∧ makeUniqueWithArrays "src/utils/helper.js" {[ "src/utils/helper.js" ]}
    = Some "helper/src/utils.js_*"
  ∧ (∀ uniqueSuffix ext basePath baseFilename,
       FP.pipe [FP.append "_" uniqueSuffix; FP.append "." ext;
                FP.append "/" basePath] baseFilename
       = ((baseFilename +:+ "/" +:+ basePath) +:+ "." +:+ ext)
         +:+ "_" +:+ uniqueSuffix).
Proof.
  do 4 (split; [vm_compute; reflexivity|]).
  apply makeUniqueName_shape.
Qed.

(** * Further properties of the code *)

(** ** What the sanitizer keeps *)

Lemma replaceRuns_kept inRun s :
  filterChars keptChar (replaceRuns inRun s) = filterChars keptChar s.
Proof.
  revert inRun. induction s as [|c s IH]; intros inRun; [done|].
  cbn [replaceRuns filterChars]. unfold keptChar at 2.
  destruct (allowedChar c) eqn:Hc.
  - cbn [filterChars]. unfold keptChar at 1. rewrite Hc, IH. done.
  - simpl. destruct inRun; [apply IH|].
    cbn [filterChars]. change (keptChar "_") with false. apply IH.
Qed.

Lemma replaceRuns_length inRun s :
  (String.length (replaceRuns inRun s) ≤ String.length s)%nat.
Proof.
  revert inRun. induction s as [|c s IH]; intros inRun; simpl; [done|].
  destruct (allowedChar c); simpl.
  - specialize (IH false). lia.
  - destruct inRun; simpl; specialize (IH true); lia.
Qed.

(** X1: the sanitizer keeps the letters, digits, dots and dashes of its
    input, all of them and in their order; what else it writes are
    underscores; and its result is never longer than the input. *)
Theorem sanitizeComponent_keeps_allowed_characters (s : string) :
  filterChars keptChar (sanitizeComponent s) = filterChars keptChar s
  ∧ allChars (λ c, keptChar c || Js.isChar "_" c) (sanitizeComponent s) = true
  ∧ (String.length (sanitizeComponent s) ≤ String.length s)%nat.
Proof.
  split; [apply replaceRuns_kept|]. split; [|apply replaceRuns_length].
  eapply allChars_impl; [|apply sanitizeComponent_allowed].
  intros c Hc. unfold keptChar, notChar. rewrite Hc.
  by destruct (Js.isChar "_" c).
Qed.

Lemma sanitizeComponent_empty s : sanitizeComponent s = "" → s = "".
Proof.
  unfold sanitizeComponent. destruct s as [|c s]; [done|]. simpl.
  by destruct (allowedChar c).
Qed.

(** X2: the sanitizer leaves a string as it is exactly when the string has
    allowed characters only, and its result is empty only for the empty
    string. *)
Theorem sanitizeComponent_fixed_points (s : string) :
  (sanitizeComponent s = s ↔ allChars allowedChar s = true)
  ∧ (sanitizeComponent s = "" ↔ s = "").
Proof.
  split; split.
  - intros <-. apply sanitizeComponent_allowed.
  - apply replaceRuns_fixed.
  - apply sanitizeComponent_empty.
  - by intros ->.
Qed.

(** ** Titles with directories *)

Lemma split_toForwardSlashes s :
  Js.split isSeparator (toForwardSlashes s) = Js.split isSeparator s.
Proof.
  induction s as [|c s IH]; [done|]. cbn [toForwardSlashes].
  destruct (Js.isChar backslash c) eqn:Hc; cbn [Js.split]; rewrite IH; [|done].
  assert (isSeparator c = true) as ->; [|done].
  unfold isSeparator. by rewrite Hc, orb_true_r.
Qed.

(** X3: a title written with backslashes is named like the title written
    with slashes: [getUniqueFileName] and [sanitizePathComponents] do not
    tell the two separators apart. *)
Theorem getUniqueFileName_separator_agnostic (title : string) (lang : Js.value)
    (messageIndex : nat) (usedNames : gset string) (useDir : bool) :
  sanitizePathComponents (toForwardSlashes title) = sanitizePathComponents title
  ∧ getUniqueFileName (toForwardSlashes title) lang messageIndex usedNames useDir
    = getUniqueFileName title lang messageIndex usedNames useDir.
Proof.
  assert (sanitizePathComponents (toForwardSlashes title)
          = sanitizePathComponents title) as Hpc.
  { unfold sanitizePathComponents. by rewrite split_toForwardSlashes. }
  split; [done|]. unfold getUniqueFileName. by rewrite Hpc.
Qed.

Section split_join.
Context (sep : ascii → bool) (c : ascii) (Hsep : sep c = true).

Lemma split_free_then_separator p rest :
  allChars (λ a, negb (sep a)) p = true →
  Js.split sep (p +:+ String c rest) = p :: Js.split sep rest.
Proof.
  induction p as [|a p IH]; simpl.
  - intros _. change ("" +:+ String c rest) with (String c rest).
    simpl. by rewrite Hsep.
  - intros [Ha Hp]%andb_true_iff. apply negb_true_iff in Ha.
    change (String a p +:+ String c rest) with (String a (p +:+ String c rest)).
    simpl. by rewrite Ha, IH.
Qed.

(** Joining parts without separator and splitting again gives the parts. *)
Lemma split_join parts :
  parts ≠ [] →
  Forall (λ p, allChars (λ a, negb (sep a)) p = true) parts →
  Js.split sep (Js.join (String c "") parts) = parts.
Proof.
  intros Hne Hparts. induction Hparts as [|p parts Hp Hparts IH]; [done|].
  destruct parts as [|q parts].
  - simpl. by apply split_free.
  - change (Js.join (String c "") (p :: q :: parts))
      with (p +:+ String c "" +:+ Js.join (String c "") (q :: parts)).
    change (String c "" +:+ ?x) with (String c x).
    rewrite split_free_then_separator by done. f_equal. by apply IH.
Qed.

End split_join.

Lemma sanitized_parts_no_slash (parts : list string) :
  Forall (λ p, allChars (notChar "/") p = true) (map sanitizeComponent parts).
Proof.
  induction parts as [|p parts IH]; constructor; [|done].
  eapply allChars_impl; [apply allowed_not_slash|apply sanitizeComponent_allowed].
Qed.

Lemma sanitizedFilename_not_empty title :
  sanitizedFilename (sanitizePathComponents title) ≠ "".
Proof.
  unfold sanitizePathComponents, Js.pop. simpl.
  intros Hempty%sanitizeComponent_empty.
  by destruct (last (Js.split isSeparator title)) as [[|c s]|].
Qed.

(** X4: [sanitizePathComponents] keeps the directory structure of the title:
    the path it returns has one segment per directory of the title, in order,
    each the sanitized directory name; and the file name it returns is never
    empty and has no separator in it. *)
Theorem sanitizePathComponents_keeps_structure (title : string) :
  segments (sanitizedPath (sanitizePathComponents title))
  = match removelast (Js.split isSeparator title) with
    | [] => [""]
    | dirs => map sanitizeComponent dirs
    end
  ∧ sanitizedFilename (sanitizePathComponents title) ≠ ""
  ∧ segments (sanitizedFilename (sanitizePathComponents title))
    = [sanitizedFilename (sanitizePathComponents title)].
Proof.
  split; [|split; [apply sanitizedFilename_not_empty|]].
  - unfold sanitizePathComponents, Js.pop. simpl.
    destruct (removelast (Js.split isSeparator title)) as [|d dirs]; [done|].
    unfold segments. apply (split_join _ "/"); [done|done|].
    apply (sanitized_parts_no_slash (d :: dirs)).
  - unfold segments. apply split_free.
    eapply allChars_impl; [apply allowed_not_slash|].
    apply sanitizedFilename_allowed.
Qed.

(** ** Where [makeUnique] puts the counter *)

Section more_strings.
Implicit Types (a b s : string) (c : ascii).

Lemma app_assoc_s a b s : (a +:+ b) +:+ s = a +:+ b +:+ s.
Proof.
  induction a as [|x a IH]; [done|].
  change (String x a +:+ b) with (String x (a +:+ b)).
  change (String x ?u +:+ ?v) with (String x (u +:+ v)). by rewrite IH.
Qed.

Lemma app_empty_r a : a +:+ "" = a.
Proof.
  induction a as [|x a IH]; [done|].
  change (String x a +:+ "") with (String x (a +:+ "")). by rewrite IH.
Qed.

Lemma take_app a b (i : nat) :
  Js.take (String.length a + i) (a +:+ b) = a +:+ Js.take i b.
Proof.
  induction a as [|x a IH]; [done|].
  change (String x a +:+ ?u) with (String x (a +:+ u)). simpl. by rewrite IH.
Qed.

Lemma drop_app a b (i : nat) :
  Js.drop (String.length a + i) (a +:+ b) = Js.drop i b.
Proof.
  induction a as [|x a IH]; [done|].
  change (String x a +:+ ?u) with (String x (a +:+ u)). simpl. by rewrite IH.
Qed.

Lemma lastIndexOfNat_free s c :
  allChars (notChar c) s = true → Js.lastIndexOfNat s c = None.
Proof.
  induction s as [|x s IH]; [done|]. simpl.
  intros [Hx Hs]%andb_true_iff. rewrite IH by done.
  unfold notChar, Js.isChar in Hx. apply negb_true_iff in Hx.
  apply bool_decide_eq_false in Hx. by rewrite bool_decide_false.
Qed.

(** The last occurrence in [a +:+ b] is the one in [b], when there is one. *)
Lemma lastIndexOfNat_app a b c :
  Js.lastIndexOfNat (a +:+ b) c
  = match Js.lastIndexOfNat b c with
    | Some i => Some (String.length a + i)%nat
    | None => Js.lastIndexOfNat a c
    end.
Proof.
  induction a as [|x a IH].
  - change ("" +:+ b) with b. by destruct (Js.lastIndexOfNat b c).
  - change (String x a +:+ b) with (String x (a +:+ b)). simpl. rewrite IH.
    by destruct (Js.lastIndexOfNat b c).
Qed.

Lemma lastIndexOfNat_at a b c :
  allChars (notChar c) b = true →
  Js.lastIndexOfNat (a +:+ String c b) c = Some (String.length a).
Proof.
  intros Hb. rewrite lastIndexOfNat_app. simpl.
  rewrite (lastIndexOfNat_free _ _ Hb), bool_decide_true by done.
  f_equal. lia.
Qed.

End more_strings.

Lemma makeUnique_cut dir base used :
  isDirectoryPrefix dir →
  allChars (notChar "/") base = true →
  makeUnique (dir +:+ base) used = uniqueInDirectory dir base used.
Proof.
  intros [->|[d ->]] Hbase; unfold makeUnique, Js.lastIndexOf; cbv zeta.
  - change ("" +:+ base) with base.
    rewrite (lastIndexOfNat_free _ _ Hbase).
    by rewrite !(bool_decide_false (-1 ≠ -1)) by lia.
  - rewrite app_assoc_s. change ("/" +:+ base) with (String "/" base).
    rewrite (lastIndexOfNat_at _ _ _ Hbase).
    rewrite !bool_decide_true by lia.
    rewrite substring_0_succ, substringFrom_succ.
    replace (S (String.length d)) with (String.length d + 1)%nat by lia.
    rewrite take_app, drop_app. done.
Qed.

Lemma uniqueInDirectory_split dir name ext used :
  isLeafSplit name ext →
  uniqueInDirectory dir (name +:+ ext) used
  = Js.doWhileUsed (iterations used) (countedName dir name ext) S used 1%nat.
Proof.
  intros [Hname [[-> Hdots]|(e & -> & Hdots & Hslash)]];
    unfold uniqueInDirectory, Js.lastIndexOf; cbv zeta.
  - rewrite app_empty_r, (lastIndexOfNat_free _ _ Hdots).
    by rewrite !(bool_decide_false (-1 ≠ -1)) by lia.
  - rewrite (lastIndexOfNat_at _ _ _ Hdots).
    rewrite !bool_decide_true by lia.
    rewrite substring_0_nat, substringFrom_nat.
    replace (String.length name) with (String.length name + 0)%nat by lia.
    rewrite take_app, drop_app. simpl. by rewrite app_empty_r.
Qed.

Lemma isLeafSplit_no_slash name ext :
  isLeafSplit name ext → allChars (notChar "/") (name +:+ ext) = true.
Proof.
  intros [Hname [[-> _]|(e & -> & _ & Hslash)]]; rewrite allChars_app, Hname.
  - done.
  - simpl. by rewrite Hslash.
Qed.

(** The counter [makeUnique] puts in: where, and which one. *)
Lemma makeUnique_least_counter (dir name ext : string)
    (usedNames : gset string) :
  isDirectoryPrefix dir →
  isLeafSplit name ext →
  ∃ k : nat,
    (1 ≤ k)%nat
    ∧ makeUnique (dir +:+ name +:+ ext) usedNames
      = Some (dir +:+ name +:+ "_" +:+ Js.numberToString k +:+ ext)
    ∧ (countedName dir name ext k ∉ usedNames)
    ∧ (∀ j : nat, (1 ≤ j < k)%nat → countedName dir name ext j ∈ usedNames).
Proof.
  intros Hdir Hleaf.
  rewrite (makeUnique_cut _ _ _ Hdir (isLeafSplit_no_slash _ _ Hleaf)).
  rewrite (uniqueInDirectory_split _ _ _ _ Hleaf).
  destruct (doWhileUsed_total (countedName dir name ext) S usedNames 1%nat)
    as [r Hr].
  { intros i j. apply counter_names_distinct. }
  rewrite Hr.
  apply doWhileUsed_Some in Hr as (Hfresh & k & _ & -> & Hbefore).
  unfold tried in *. rewrite iter_succ_from in *.
  exists (k + 1)%nat. split; [lia|]. split; [done|]. split; [done|].
  intros j Hj. specialize (Hbefore (j - 1)%nat).
  rewrite iter_succ_from in Hbefore.
  replace (j - 1 + 1)%nat with j in Hbefore by lia. apply Hbefore. lia.
Qed.

(** X5: for a file name made of a directory part, a name and an extension
    (the text from the last dot of the leaf on, or nothing), [makeUnique]
    puts an underscore and a counter between name and extension and leaves
    the rest as it is; the counter is the least one from 1 on whose name is
    not used. *)
Theorem makeUnique_counter_before_extension (dir name ext : string)
    (usedNames : gset string) :
  isDirectoryPrefix dir →
  isLeafSplit name ext →
  ∃ k : nat,
    (1 ≤ k)%nat
    ∧ makeUnique (dir +:+ name +:+ ext) usedNames
      = Some (dir +:+ name +:+ "_" +:+ Js.numberToString k +:+ ext)
    ∧ (countedName dir name ext k ∉ usedNames)
    ∧ (∀ j : nat, (1 ≤ j < k)%nat → countedName dir name ext j ∈ usedNames).
Proof. apply makeUnique_least_counter. Qed.

(** A hidden file in a directory: the leaf starts with its only dot. *)
Lemma makeUnique_counter_before_extension_witness :
  isDirectoryPrefix "src/" ∧ isLeafSplit "" ".gitignore"
  ∧ ∃ k : nat,
      (1 ≤ k)%nat
      ∧ makeUnique ("src/" +:+ "" +:+ ".gitignore")
          ({[ "src/.gitignore" ]} ∪ {[ "src/_1.gitignore" ]})
        = Some ("src/" +:+ "" +:+ "_" +:+ Js.numberToString k +:+ ".gitignore")
      ∧ (countedName "src/" "" ".gitignore" k
         ∉ ({[ "src/.gitignore" ]} ∪ {[ "src/_1.gitignore" ]} : gset string))
      ∧ (∀ j : nat, (1 ≤ j < k)%nat →
           countedName "src/" "" ".gitignore" j
           ∈ ({[ "src/.gitignore" ]} ∪ {[ "src/_1.gitignore" ]} : gset string)).
Proof.
  assert (isDirectoryPrefix "src/") as Hdir by (right; by exists "src").
  assert (isLeafSplit "" ".gitignore") as Hleaf.
  { split; [reflexivity|]. right. exists "gitignore". by repeat split. }
  split; [exact Hdir|]. split; [exact Hleaf|].
  exact (makeUnique_counter_before_extension "src/" "" ".gitignore" _ Hdir Hleaf).
Defined.

(** ** [makeUnique] always renames *)

Lemma pretty_N_go_length (x : N) (acc : string) :
  (String.length acc ≤ String.length (pretty_N_go x acc))%nat.
Proof.
  revert acc. induction (N.lt_wf_0 x) as [x _ IH]. intros acc.
  destruct (decide (x = 0)%N) as [->|Hpos]; [done|].
  rewrite pretty_N_go_step by lia.
  etrans; [|apply IH; apply N.div_lt; lia]. simpl. lia.
Qed.

Lemma numberToString_not_empty (n : nat) :
  (1 ≤ String.length (Js.numberToString n))%nat.
Proof.
  unfold Js.numberToString, pretty, pretty_nat, pretty, pretty_N.
  case_decide as Hn; [done|].
  rewrite pretty_N_go_step by lia.
  etrans; [|apply pretty_N_go_length]. simpl. lia.
Qed.

Lemma take_drop_length n s :
  (String.length (Js.take n s) + String.length (Js.drop n s))%nat
  = String.length s.
Proof. by rewrite <- app_length, take_drop. Qed.

Lemma app_empty_l (s : string) : "" +:+ s = s.
Proof. done. Qed.

Lemma filterChars_app P a b :
  filterChars P (a +:+ b) = filterChars P a +:+ filterChars P b.
Proof.
  induction a as [|x a IH]; [done|].
  change (String x a +:+ b) with (String x (a +:+ b)). simpl.
  destruct (P x); [|done].
  change (String x ?u +:+ ?v) with (String x (u +:+ v)). by rewrite IH.
Qed.

Lemma filterChars_none P s :
  allChars (λ c, negb (P c)) s = true → filterChars P s = "".
Proof.
  induction s as [|x s IH]; [done|]. simpl.
  intros [Hx Hs]%andb_true_iff. apply negb_true_iff in Hx. rewrite Hx. auto.
Qed.

(** X6: [makeUnique] never returns the name it is given, not even when that
    name is free: its result is longer by the underscore and the digits of
    the counter, consists of the characters of the name, that underscore
    and digits, and is not a used name. *)
Theorem makeUnique_always_renames (fileName : string) (usedNames : gset string) :
  ∃ r, makeUnique fileName usedNames = Some r
       ∧ r ≠ fileName
       ∧ (String.length fileName + 2 ≤ String.length r)%nat
       ∧ filterChars (λ c, negb (Js.isDigit c) && notChar "_" c) r
         = filterChars (λ c, negb (Js.isDigit c) && notChar "_" c) fileName
       ∧ (r ∉ usedNames).
Proof.
  destruct (makeUnique_total fileName usedNames) as (r & Hr & Hfresh).
  exists r. split; [done|].
  destruct (makeUnique_unfold fileName usedNames) as (n & m & _ & Hloop).
  rewrite Hloop in Hr. apply doWhileUsed_Some in Hr as (_ & k & _ & -> & _).
  unfold tried in *. set (counter := Nat.iter k S 1%nat) in *.
  assert (String.length fileName + 2
          ≤ String.length
              (Js.take n fileName +:+ Js.take m (Js.drop n fileName) +:+ "_"
               +:+ Js.numberToString counter +:+ Js.drop m (Js.drop n fileName)))%nat
    as Hlen.
  { rewrite !app_length. simpl.
    pose proof (numberToString_not_empty counter).
    pose proof (take_drop_length n fileName).
    pose proof (take_drop_length m (Js.drop n fileName)). lia. }
  split; [|split; [done|split; [|done]]].
  - intros Heq. rewrite Heq in Hlen. lia.
  - rewrite !filterChars_app.
    rewrite (filterChars_none _ (Js.numberToString counter)).
    + change (filterChars _ "_") with "".
      rewrite !app_empty_l.
      by rewrite <- !filterChars_app, !take_drop.
    + eapply allChars_impl; [|apply numberToString_digits].
      intros c ->. done.
Qed.

(** ** What [getUniqueFileName] returns *)

Lemma languageTable_extensions :
  Forall (λ entry, ∃ e, entry.2 = String "." e
                        ∧ allChars (notChar ".") e = true
                        ∧ allChars (notChar "/") e = true) languageTable.
Proof.
  unfold languageTable.
  repeat (constructor; [eexists; split; [reflexivity|by split]|]).
  constructor.
Qed.

(** An extension of the table is a dot and text without dot or slash. *)
Lemma getFileExtension_shape lang :
  ∃ e, getFileExtension lang = String "." e
       ∧ allChars (notChar ".") e = true
       ∧ allChars (notChar "/") e = true.
Proof.
  assert (∃ e, ".txt" = String "." e ∧ allChars (notChar ".") e = true
               ∧ allChars (notChar "/") e = true) as Htxt
    by (exists "txt"; by repeat split).
  destruct lang as [| |s]; [done..|].
  rewrite getFileExtension_lookup.
  destruct (languageToExt !! _) as [ext|] eqn:Hext; [|done].
  apply elem_of_list_to_map_2 in Hext.
  pose proof languageTable_extensions as Htable.
  rewrite Forall_forall in Htable. exact (Htable _ Hext).
Qed.

Lemma candidatePath_parts title lang messageIndex useDir :
  candidatePath title lang messageIndex useDir
  = directoryPart title useDir +:+ leafName title messageIndex useDir
    +:+ getFileExtension lang.
Proof.
  unfold candidatePath, constructFilePath, directoryPart, leafName. cbv zeta.
  destruct useDir; simpl.
  - destruct (truthy _); [|done]. by rewrite !app_assoc_s.
  - by rewrite !app_assoc_s.
Qed.

Lemma directoryPart_prefix title useDir :
  isDirectoryPrefix (directoryPart title useDir).
Proof.
  unfold directoryPart. cbv zeta.
  destruct (useDir && truthy _); [right; by eexists|by left].
Qed.

Lemma leafName_split title lang messageIndex useDir :
  isLeafSplit (leafName title messageIndex useDir) (getFileExtension lang).
Proof.
  split.
  - unfold leafName. cbv zeta.
    pose proof (allChars_impl _ _ _ allowed_not_slash
                  (sanitizedFilename_allowed title)) as Hname.
    destruct useDir; [done|].
    by rewrite !allChars_app, numberToString_no_slash, Hname.
  - right. apply getFileExtension_shape.
Qed.

(** The candidate, or the candidate with the least free counter. *)
Lemma getUniqueFileName_parts (title : string) (lang : Js.value)
    (messageIndex : nat) (usedNames : gset string) (useDir : bool) :
  ∃ p, getUniqueFileName title lang messageIndex usedNames useDir
         = Some (p, {[ p ]} ∪ usedNames)
       ∧ candidatePath title lang messageIndex useDir
         = directoryPart title useDir +:+ leafName title messageIndex useDir
           +:+ getFileExtension lang
       ∧ (((candidatePath title lang messageIndex useDir ∉ usedNames)
           ∧ p = candidatePath title lang messageIndex useDir)
          ∨ (candidatePath title lang messageIndex useDir ∈ usedNames
             ∧ ∃ k : nat,
                 (1 ≤ k)%nat
                 ∧ p = countedName (directoryPart title useDir)
                         (leafName title messageIndex useDir)
                         (getFileExtension lang) k
                 ∧ (p ∉ usedNames)
                 ∧ (∀ j : nat, (1 ≤ j < k)%nat →
                      countedName (directoryPart title useDir)
                        (leafName title messageIndex useDir)
                        (getFileExtension lang) j
                      ∈ usedNames))).
Proof.
  destruct (getUniqueFileName_cases title lang messageIndex usedNames useDir)
    as (p & Hp & Hfresh & Hcases).
  exists p. split; [done|]. split; [apply candidatePath_parts|].
  destruct Hcases as [->|[Hused Hunique]]; [by left|right].
  split; [done|].
  rewrite candidatePath_parts in Hunique.
  destruct (makeUnique_least_counter (directoryPart title useDir)
              (leafName title messageIndex useDir) (getFileExtension lang)
              usedNames (directoryPart_prefix _ _) (leafName_split _ _ _ _))
    as (k & Hk & Hresult & _ & Hleast).
  rewrite Hresult in Hunique. injection Hunique as <-.
  exists k. done.
Qed.

(** X7: what [getUniqueFileName] returns, in full. The candidate is the
    directory part (directory mode only), the name (with the index and an
    underscore before it in Flat mode) and the extension. When the candidate
    is free it is returned as it is; when it is used, the result is the
    candidate with an underscore and a counter between name and extension,
    for the least counter from 1 on that gives a free name. *)
Theorem getUniqueFileName_result (title : string) (lang : Js.value)
    (messageIndex : nat) (usedNames : gset string) (useDir : bool) :
  ∃ p, getUniqueFileName title lang messageIndex usedNames useDir
         = Some (p, {[ p ]} ∪ usedNames)
       ∧ candidatePath title lang messageIndex useDir
         = directoryPart title useDir +:+ leafName title messageIndex useDir
           +:+ getFileExtension lang
       ∧ (((candidatePath title lang messageIndex useDir ∉ usedNames)
           ∧ p = candidatePath title lang messageIndex useDir)
          ∨ (candidatePath title lang messageIndex useDir ∈ usedNames
             ∧ ∃ k : nat,
                 (1 ≤ k)%nat
                 ∧ p = countedName (directoryPart title useDir)
                         (leafName title messageIndex useDir)
                         (getFileExtension lang) k
                 ∧ (p ∉ usedNames)
                 ∧ (∀ j : nat, (1 ≤ j < k)%nat →
                      countedName (directoryPart title useDir)
                        (leafName title messageIndex useDir)
                        (getFileExtension lang) j
                      ∈ usedNames))).
Proof. apply getUniqueFileName_parts. Qed.

(** X8: a call of [getUniqueFileName] adds exactly one name to the set of
    used names and removes none; the name it returns is the candidate
    exactly when the candidate was free. A run over [n] artifacts adds
    exactly [n] names. *)
Theorem getUniqueFileName_grows_by_one (title : string) (lang : Js.value)
    (messageIndex : nat) (usedNames : gset string) (useDir : bool)
    (artifacts : list ArtifactRef) :
  (∃ p usedNames',
     getUniqueFileName title lang messageIndex usedNames useDir
       = Some (p, usedNames')
     ∧ size usedNames' = S (size usedNames)
     ∧ usedNames ⊆ usedNames'
     ∧ (p = candidatePath title lang messageIndex useDir
        ↔ candidatePath title lang messageIndex useDir ∉ usedNames))
  ∧ (∃ ps usedNames',
       assignAll useDir artifacts usedNames = Some (ps, usedNames')
       ∧ size usedNames' = (size usedNames + length artifacts)%nat
       ∧ usedNames ⊆ usedNames').
Proof.
  split.
  - destruct (getUniqueFileName_cases title lang messageIndex usedNames useDir)
      as (p & Hp & Hfresh & Hcases).
    exists p, ({[ p ]} ∪ usedNames). split; [done|].
    split; [|split; [apply union_subseteq_r|]].
    + rewrite size_union by (by apply disjoint_singleton_l).
      by rewrite size_singleton.
    + split; [by intros <-|].
      intros Hfree. by destruct Hcases as [->|[Hused _]].
  - destruct (assignAll_fresh useDir artifacts usedNames)
      as (ps & Hps & Hlen & Hnodup & Hnew).
    exists ps, (list_to_set ps ∪ usedNames). split; [done|].
    split; [|apply union_subseteq_r].
    rewrite size_union.
    + rewrite size_list_to_set by done. lia.
    + intros x Hx%elem_of_list_to_set Hused. by apply (Hnew x).
Qed.

(** ** The index prefix in Flat mode *)

Lemma digits_before_underscore (d1 d2 x y : string) :
  allChars Js.isDigit d1 = true →
  allChars Js.isDigit d2 = true →
  d1 +:+ "_" +:+ x = d2 +:+ "_" +:+ y →
  d1 = d2.
Proof.
  revert d2. induction d1 as [|a d1 IH]; intros [|b d2]; simpl; try done.
  - intros _ [Hb _]%andb_true_iff.
    change ("" +:+ ?u) with u. change (String b d2 +:+ ?u) with (String b (d2 +:+ u)).
    intros [= <-]. done.
  - intros [Ha _]%andb_true_iff _.
    change ("" +:+ ?u) with u. change (String a d1 +:+ ?u) with (String a (d1 +:+ u)).
    intros [= ->]. done.
  - intros [_ H1]%andb_true_iff [_ H2]%andb_true_iff.
    change (String ?c ?u +:+ ?v) with (String c (u +:+ v)).
    intros [= -> Heq]. f_equal. by apply IH.
Qed.

(** In Flat mode the returned path starts with the index and an
    underscore, whether a counter was added or not. *)
Lemma flat_path_prefix title lang messageIndex usedNames p usedNames' :
  getUniqueFileName title lang messageIndex usedNames false = Some (p, usedNames') →
  ∃ rest, p = Js.numberToString (messageIndex + 1) +:+ "_" +:+ rest.
Proof.
  intros Hcall.
  destruct (getUniqueFileName_parts title lang messageIndex usedNames false)
    as (q & Hq & Hparts & Hcases).
  rewrite Hq in Hcall. injection Hcall as <- <-.
  destruct Hcases as [[_ ->]|[_ (k & _ & -> & _)]].
  - rewrite Hparts. unfold directoryPart, leafName. simpl.
    rewrite app_empty_l, !app_assoc_s. by eexists.
  - unfold countedName, directoryPart, leafName. simpl.
    rewrite app_empty_l, !app_assoc_s. by eexists.
Qed.

(** X9: for message indexes that are safe integers (up to 2^53 - 1, so
    that the index plus one is an exact number, printed in plain digits), in
    Flat mode every returned path begins with the message index plus one and
    an underscore, also after a collision; so the paths assigned for two
    different such indexes are different, whatever the titles, languages and
    sets of used names are. *)
Theorem flat_paths_differ_across_indexes (title1 title2 : string)
    (lang1 lang2 : Js.value) (i j : nat) (used1 used2 : gset string)
    (p1 p2 : string) (used1' used2' : gset string) :
  Js.isSafeInteger i →
  Js.isSafeInteger j →
  getUniqueFileName title1 lang1 i used1 false = Some (p1, used1') →
  getUniqueFileName title2 lang2 j used2 false = Some (p2, used2') →
  i ≠ j →
  (∃ rest, p1 = Js.numberToString (i + 1) +:+ "_" +:+ rest)
  ∧ (∃ rest, p2 = Js.numberToString (j + 1) +:+ "_" +:+ rest)
  ∧ p1 ≠ p2.
Proof.
  intros _ _ [r1 ->]%flat_path_prefix [r2 ->]%flat_path_prefix Hij.
  split; [by eexists|]. split; [by eexists|].
  intros Heq%digits_before_underscore; [|apply numberToString_digits..].
  apply (inj pretty) in Heq. lia.
Qed.

(** The same title in the messages 0 and 1, the second name being taken
    already. *)
Lemma flat_paths_differ_across_indexes_witness :
  Js.isSafeInteger 0
  ∧ Js.isSafeInteger 1
  ∧ (∃ rest, "1_a.txt" = Js.numberToString (0 + 1) +:+ "_" +:+ rest)
  ∧ (∃ rest, "2_a_1.txt" = Js.numberToString (1 + 1) +:+ "_" +:+ rest)
  ∧ "1_a.txt" ≠ "2_a_1.txt".
Proof.
  assert (Js.isSafeInteger 0) as H0
    by (unfold Js.isSafeInteger, Js.MAX_SAFE_INTEGER; lia).
  assert (Js.isSafeInteger 1) as H1
    by (unfold Js.isSafeInteger, Js.MAX_SAFE_INTEGER; lia).
  split; [exact H0|]. split; [exact H1|].
  apply (flat_paths_differ_across_indexes "a" "a" Js.Null Js.Null 0 1
           ∅ {[ "2_a.txt" ]} "1_a.txt" "2_a_1.txt"
           ({[ "1_a.txt" ]} ∪ ∅) ({[ "2_a_1.txt" ]} ∪ {[ "2_a.txt" ]}) H0 H1).
  - vm_compute. reflexivity.
  - vm_compute. reflexivity.
  - lia.
Defined.

(** ** What [makeUniqueWithArrays] returns *)

Lemma split_not_empty (sep : ascii → bool) (s : string) : Js.split sep s ≠ [].
Proof. destruct (split_snoc sep s) as (init & lst & ->). by destruct init. Qed.

Lemma join_cons_char (sep : string) (a : ascii) (seg : string) (rest : list string) :
  Js.join sep (String a seg :: rest) = String a (Js.join sep (seg :: rest)).
Proof. by destruct rest. Qed.

(** Splitting at a character and joining with it gives the string back. *)
Lemma join_split (c : ascii) (s : string) :
  Js.join (String c "") (Js.split (Js.isChar c) s) = s.
Proof.
  induction s as [|a s IH]; [done|]. simpl.
  destruct (Js.isChar c a) eqn:Ha.
  - apply bool_decide_eq_true in Ha as ->.
    destruct (Js.split (Js.isChar c) s) as [|seg rest] eqn:Hs;
      [by apply split_not_empty in Hs|].
    change (Js.join (String c "") ("" :: seg :: rest))
      with (String c (Js.join (String c "") (seg :: rest))).
    by rewrite IH.
  - destruct (Js.split (Js.isChar c) s) as [|seg rest] eqn:Hs;
      [by apply split_not_empty in Hs|].
    by rewrite join_cons_char, IH.
Qed.

Lemma split_before_last_segment (sep : ascii → bool) (c : ascii) (d leaf : string) :
  sep c = true →
  allChars (λ a, negb (sep a)) leaf = true →
  Js.split sep (d +:+ String c leaf) = Js.split sep d ++ [leaf].
Proof.
  intros Hc Hleaf. induction d as [|a d IH].
  - rewrite app_empty_l. simpl. by rewrite Hc, split_free.
  - change (String a d +:+ ?u) with (String a (d +:+ u)). simpl. rewrite IH.
    destruct (sep a); [done|].
    destruct (Js.split sep d) as [|seg rest] eqn:Hd;
      [by apply split_not_empty in Hd|done].
Qed.

Lemma starRun_tried (stem : string) (k : nat) :
  tried (λ uniqueSuffix, stem +:+ "_" +:+ uniqueSuffix)
    (λ uniqueSuffix, uniqueSuffix +:+ "*") "*" k
  = stem +:+ "_" +:+ starRun k.
Proof. done. Qed.

(** The loop of the alternative version, for a stem: the least run of stars
    that gives a free name. *)
Lemma star_loop_least (stem : string) (used : gset string) :
  ∃ k : nat,
    Js.doWhileUsed (iterations used)
      (λ uniqueSuffix, stem +:+ "_" +:+ uniqueSuffix)
      (λ uniqueSuffix, uniqueSuffix +:+ "*") used "*"
    = Some (stem +:+ "_" +:+ starRun k)
    ∧ (stem +:+ "_" +:+ starRun k ∉ used)
    ∧ (∀ j : nat, (j < k)%nat → stem +:+ "_" +:+ starRun j ∈ used).
Proof.
  destruct (doWhileUsed_total (λ uniqueSuffix, stem +:+ "_" +:+ uniqueSuffix)
              (λ uniqueSuffix, uniqueSuffix +:+ "*") used "*") as [r Hr].
  { intros i j Heq. unfold tried in Heq.
    do 2 apply String.app_inj in Heq.
    apply (f_equal String.length) in Heq.
    rewrite !star_suffix_length in Heq. lia. }
  rewrite Hr. apply doWhileUsed_Some in Hr as (Hfresh & k & _ & -> & Hbefore).
  exists k. done.
Qed.

(** X10: what the alternative [makeUniqueWithArrays] returns for a file
    name made of a directory [d], a slash, a name and an extension [.e]: the
    name first, then a slash and the directory, the dot and the extension,
    and at the very end an underscore and a run of stars, the shortest run
    that gives a free name (one star at least). Without a directory the
    slash is there all the same. The loop always ends. *)
Theorem makeUniqueWithArrays_result (d name e : string) (usedNames : gset string) :
  allChars (notChar "/") name = true →
  allChars (notChar ".") e = true →
  allChars (notChar "/") e = true →
  (∃ k : nat,
     makeUniqueWithArrays (d +:+ "/" +:+ name +:+ "." +:+ e) usedNames
     = Some (((name +:+ "/" +:+ d) +:+ "." +:+ e) +:+ "_" +:+ starRun k)
     ∧ (((name +:+ "/" +:+ d) +:+ "." +:+ e) +:+ "_" +:+ starRun k ∉ usedNames)
     ∧ (∀ j : nat, (j < k)%nat →
          ((name +:+ "/" +:+ d) +:+ "." +:+ e) +:+ "_" +:+ starRun j ∈ usedNames))
  ∧ (∃ k : nat,
       makeUniqueWithArrays (name +:+ "." +:+ e) usedNames
       = Some (((name +:+ "/" +:+ "") +:+ "." +:+ e) +:+ "_" +:+ starRun k)
       ∧ (((name +:+ "/" +:+ "") +:+ "." +:+ e) +:+ "_" +:+ starRun k ∉ usedNames)
       ∧ (∀ j : nat, (j < k)%nat →
            ((name +:+ "/" +:+ "") +:+ "." +:+ e) +:+ "_" +:+ starRun j
            ∈ usedNames)).
Proof.
  intros Hname Hdots Hslash.
  assert (allChars (notChar "/") (name +:+ "." +:+ e) = true) as Hleaf.
  { rewrite !allChars_app, Hname. simpl. by rewrite Hslash. }
  assert (Js.orElse (Some (name +:+ "." +:+ e)) "" = name +:+ "." +:+ e) as Hor.
  { by destruct (name +:+ "." +:+ e). }
  assert (Js.split (Js.isChar ".") (name +:+ "." +:+ e)
          = Js.split (Js.isChar ".") name ++ [e]) as Hparts.
  { change ("." +:+ e) with (String "." e).
    by apply split_before_last_segment. }
  assert ((1 <? length (Js.split (Js.isChar ".") name ++ [e]))%nat = true) as Hmany.
  { apply Nat.ltb_lt. rewrite length_app. simpl.
    pose proof (split_not_empty (Js.isChar ".") name).
    destruct (Js.split (Js.isChar ".") name); [done|simpl; lia]. }
  split.
  - unfold makeUniqueWithArrays, Js.pop.
    change ("/" +:+ name +:+ "." +:+ e) with (String "/" (name +:+ "." +:+ e)).
    rewrite (split_before_last_segment (Js.isChar "/") "/" d _ eq_refl Hleaf).
    rewrite last_snoc, removelast_last, Hor, Hparts, Hmany.
    cbn [fst snd]. rewrite last_snoc, removelast_last, !join_split.
    apply (star_loop_least ((name +:+ "/" +:+ d) +:+ "." +:+ e)).
  - unfold makeUniqueWithArrays, Js.pop.
    rewrite (split_free (Js.isChar "/") _ Hleaf).
    cbn [last removelast]. rewrite Hor, Hparts, Hmany.
    cbn [fst snd]. rewrite last_snoc, removelast_last, join_split.
    apply (star_loop_least ((name +:+ "/" +:+ "") +:+ "." +:+ e)).
Qed.

Lemma makeUniqueWithArrays_result_witness :
  allChars (notChar "/") "helper" = true
  ∧ allChars (notChar ".") "js" = true
  ∧ allChars (notChar "/") "js" = true
  ∧ ∃ k : nat,
      makeUniqueWithArrays ("src/utils" +:+ "/" +:+ "helper" +:+ "." +:+ "js")
        {[ "src/utils/helper.js" ]}
      = Some ((("helper" +:+ "/" +:+ "src/utils") +:+ "." +:+ "js")
              +:+ "_" +:+ starRun k).
Proof.
  split; [reflexivity|]. split; [reflexivity|]. split; [reflexivity|].
  destruct (proj1 (makeUniqueWithArrays_result "src/utils" "helper" "js"
                     {[ "src/utils/helper.js" ]} eq_refl eq_refl eq_refl))
    as (k & Hk & _).
  by exists k.
Defined.

(** ** The function pipelines *)

Lemma compose_snoc {A : Type} (fns : list (A → A)) (fn : A → A) (arg : A) :
  FP.compose (fns ++ [fn]) arg = fn (FP.compose fns arg).
Proof. unfold FP.compose. by rewrite foldl_app. Qed.

(** X11: the two pipeline helpers of the naming code apply the same
    functions in opposite orders: [pipe] applies its last function first
    and [compose] its first function first, so [pipe] of a list is [compose]
    of the reversed list; pipelines of appended lists are nested
    pipelines; and the [pipe] of the migration plan goes from the first
    function on, as [compose] does. [append] and [prepend] build the same
    string, base first. *)
Theorem pipe_is_compose_reversed {A : Type} (fns fns' : list (A → A)) (arg : A) :
  FP.pipe fns arg = FP.compose (reverse fns) arg
  ∧ FP.compose (fns ++ fns') arg = FP.compose fns' (FP.compose fns arg)
  ∧ FP.pipe (fns ++ fns') arg = FP.pipe fns (FP.pipe fns' arg)
  ∧ Composition.pipe fns arg = FP.compose fns arg
  ∧ Composition.pipe fns arg = FP.pipe (reverse fns) arg
  ∧ (∀ separator base suffix,
       FP.append separator suffix base = FP.prepend separator base suffix
       ∧ FP.append separator suffix base = base +:+ separator +:+ suffix).
Proof.
  assert (∀ l : list (A → A), FP.pipe l arg = FP.compose (reverse l) arg) as Hrev.
  { induction l as [|fn l IH]; [done|].
    rewrite reverse_cons, compose_snoc, <- IH. done. }
  split; [apply Hrev|]. split; [apply foldl_app|]. split; [apply foldr_app|].
  split; [done|]. split; [|done].
  by rewrite Hrev, reverse_involutive.
Qed.

(** ** The archive *)

(** The loop keeps the entries of the archive among the used names, and so
    never writes an entry twice. *)
Lemma addArtifacts_invariant (messageIndex : nat) (useDir : bool)
    (artifacts : list Background.Artifact) (st : Background.Archive) :
  dom (Background.zip st) ⊆ Background.usedNames st →
  ∃ st',
    Background.addArtifacts messageIndex useDir artifacts st = Some st'
    ∧ Background.artifactCount st'
      = (Background.artifactCount st + length artifacts)%nat
    ∧ size (Background.zip st') = (size (Background.zip st) + length artifacts)%nat
    ∧ (∀ path c, Background.zip st !! path = Some c →
                 Background.zip st' !! path = Some c)
    ∧ (∀ a, a ∈ artifacts →
            ∃ path, Background.zip st !! path = None
                    ∧ Background.zip st' !! path = Some (Background.content a))
    ∧ dom (Background.zip st') ⊆ Background.usedNames st'
    ∧ Background.usedNames st ⊆ Background.usedNames st'.
Proof.
  revert st. induction artifacts as [|a rest IH]; intros st Hdom.
  - exists st. simpl. repeat split; try done; try lia.
    intros a Ha. by apply not_elem_of_nil in Ha.
  - destruct (getUniqueFileName_fresh (Background.title a)
                (Js.Str (Background.language a)) messageIndex
                (Background.usedNames st) useDir) as (p & Hp & Hfresh).
    assert (Background.zip st !! p = None) as Hnew.
    { apply not_elem_of_dom. intros Hin. by apply Hfresh, Hdom. }
    simpl. rewrite Hp. simpl.
    edestruct IH as (st' & -> & Hcount & Hsize & Hkeep & Hadded & Hdom' & Hused).
    { simpl. unfold Background.file. rewrite dom_insert.
      by apply union_mono_l. }
    simpl in *. unfold Background.file in *.
    exists st'. split; [done|]. split; [lia|].
    split; [rewrite Hsize, map_size_insert_None by done; lia|].
    split; [|split; [|split; [done|]]].
    + intros path c Hpath. apply Hkeep.
      rewrite lookup_insert_ne; [done|]. intros ->. congruence.
    + intros b [->|Hb]%elem_of_cons.
      * exists p. split; [done|]. apply Hkeep. by rewrite lookup_insert_eq.
      * destruct (Hadded b Hb) as (path & Hnone & Hsome).
        exists path. split; [|done].
        by apply lookup_insert_None in Hnone as [? _].
    + etrans; [|exact Hused]. apply union_subseteq_r.
Qed.

(** X12: when every entry of the archive is a used name, adding the
    artifacts of a message overwrites nothing: the entries that were there
    stay as they are, each artifact gets an entry of its own that was not
    there, with its content, the archive and the counter grow by the number
    of artifacts, and every entry is a used name again. *)
Theorem addArtifacts_overwrites_nothing (messageIndex : nat) (useDir : bool)
    (artifacts : list Background.Artifact) (st : Background.Archive) :
  dom (Background.zip st) ⊆ Background.usedNames st →
  ∃ st',
    Background.addArtifacts messageIndex useDir artifacts st = Some st'
    ∧ Background.artifactCount st'
      = (Background.artifactCount st + length artifacts)%nat
    ∧ size (Background.zip st') = (size (Background.zip st) + length artifacts)%nat
    ∧ (∀ path c, Background.zip st !! path = Some c →
                 Background.zip st' !! path = Some c)
    ∧ (∀ a, a ∈ artifacts →
            ∃ path, Background.zip st !! path = None
                    ∧ Background.zip st' !! path = Some (Background.content a))
    ∧ dom (Background.zip st') ⊆ Background.usedNames st'
    ∧ Background.usedNames st ⊆ Background.usedNames st'.
Proof. apply addArtifacts_invariant. Qed.

(** Two artifacts with the same title in an empty archive. *)
Lemma addArtifacts_overwrites_nothing_witness :
  ∃ st',
    Background.addArtifacts 0 false
      [ {| Background.title := "a"; Background.language := "python";
           Background.content := "x = 1" |};
        {| Background.title := "a"; Background.language := "python";
           Background.content := "x = 2" |} ]
      {| Background.artifactCount := 0; Background.usedNames := ∅;
         Background.zip := ∅ |}
    = Some st'
    ∧ Background.artifactCount st' = 2%nat
    ∧ size (Background.zip st') = 2%nat.
Proof.
  destruct (addArtifacts_overwrites_nothing 0 false
              [ {| Background.title := "a"; Background.language := "python";
                   Background.content := "x = 1" |};
                {| Background.title := "a"; Background.language := "python";
                   Background.content := "x = 2" |} ]
              {| Background.artifactCount := 0; Background.usedNames := ∅;
                 Background.zip := ∅ |})
    as (st' & Hrun & Hcount & Hsize & _).
  { simpl. by rewrite dom_empty. }
  exists st'. split; [exact Hrun|]. split; [exact Hcount|].
  rewrite Hsize. simpl. by rewrite map_size_empty.
Defined.

(** ** Matching *)

Section matching.
Implicit Types (text s u w : string) (items : list Regex.item).

Lemma startsWith_app text s : Regex.startsWith text (text +:+ s) = true.
Proof.
  induction text as [|a text IH]; [done|].
  change (String a text +:+ s) with (String a (text +:+ s)). simpl.
  by rewrite bool_decide_true, IH.
Qed.

Lemma drop_app_length text s : Js.drop (String.length text) (text +:+ s) = s.
Proof.
  replace (String.length text) with (String.length text + 0)%nat by lia.
  by rewrite drop_app.
Qed.

Lemma startsWith_true text s :
  Regex.startsWith text s = true → s = text +:+ Js.drop (String.length text) s.
Proof.
  revert s. induction text as [|a text IH]; intros [|b s]; simpl; try done.
  intros [->%bool_decide_eq_true Hs]%andb_true_iff.
  change (String b text +:+ ?x) with (String b (text +:+ x)). f_equal. auto.
Qed.

Lemma startsWith_app_mono text u w :
  Regex.startsWith text u = true → Regex.startsWith text (u +:+ w) = true.
Proof.
  revert u. induction text as [|a text IH]; intros [|b u]; simpl; try done.
  intros [-> Hu]%andb_true_iff.
  change (String b u +:+ w) with (String b (u +:+ w)). simpl. auto.
Qed.

(** A text that starts in [u] and matches [u +:+ w] lies in [u], or [u] is
    a beginning of it and the rest goes on in [w]. *)
Lemma startsWith_through text u w :
  Regex.startsWith text (u +:+ w) = true →
  Regex.startsWith text u = true
  ∨ ((String.length u < String.length text)%nat
     ∧ Regex.startsWith (Js.drop (String.length u) text) w = true).
Proof.
  revert text. induction u as [|b u IH]; intros text.
  - rewrite app_empty_l. destruct text; [by left|]. right. split; [simpl; lia|done].
  - change (String b u +:+ w) with (String b (u +:+ w)).
    destruct text as [|a text]; [by left|]. simpl.
    intros [Hab Htext]%andb_true_iff.
    destruct (IH _ Htext) as [Hin|[Hlen Hrest]].
    + left. by rewrite Hab, Hin.
    + right. split; [lia|done].
Qed.

Lemma startsWith_shorter text u w :
  (String.length text ≤ String.length u)%nat →
  Regex.startsWith text (u +:+ w) = Regex.startsWith text u.
Proof.
  revert u. induction text as [|a text IH]; intros [|b u]; simpl; try done; try lia.
  intros Hlen. change (String b u +:+ w) with (String b (u +:+ w)). simpl.
  rewrite IH by lia. done.
Qed.

Lemma drop_length k s :
  (String.length (Js.drop k s) ≤ String.length s)%nat.
Proof.
  revert k. induction s as [|a s IH]; intros [|k]; simpl; try done.
  specialize (IH k). lia.
Qed.

Lemma unbordered_at text k :
  Regex.unbordered text = true →
  (1 ≤ k < String.length text)%nat →
  Regex.startsWith (Js.drop k text) text = false.
Proof.
  unfold Regex.unbordered. rewrite forallb_forall. intros Hall Hk.
  apply negb_true_iff, Hall, in_seq. lia.
Qed.

(** Before an occurrence of an unbordered text no other occurrence can
    start, unless it ends before. *)
Lemma no_overlap text u s :
  Regex.unbordered text = true →
  u ≠ "" →
  Regex.startsWith text u = false →
  Regex.startsWith text (u +:+ text +:+ s) = false.
Proof.
  intros Hunbordered Hu Hnot.
  destruct (Regex.startsWith text (u +:+ text +:+ s)) eqn:Hstarts; [|done].
  apply startsWith_through in Hstarts as [Hin|[Hlen Hrest]]; [congruence|].
  rewrite startsWith_shorter in Hrest by apply drop_length.
  rewrite unbordered_at in Hrest; [done..|].
  destruct u; [done|]. simpl in *. lia.
Qed.

Lemma includes_cons text c s :
  Regex.includes text (String c s) = false →
  Regex.startsWith text (String c s) = false ∧ Regex.includes text s = false.
Proof. simpl. by intros [??]%orb_false_iff. Qed.

Lemma matchFrom_Lit text rest s :
  Regex.matchFrom (Regex.Lit text :: rest) s
  = if Regex.startsWith text s then
      r ← Regex.matchFrom rest (Js.drop (String.length text) s);
      Some {| Regex.whole := text +:+ Regex.whole r;
              Regex.groups := Regex.groups r;
              Regex.remainder := Regex.remainder r |}
    else None.
Proof. done. Qed.

Lemma matchFrom_Star greedy cls capture rest s :
  Regex.matchFrom (Regex.Star greedy cls capture :: rest) s
  = ('(taken, r) ←
       (if greedy then Regex.starGreedy else Regex.starLazy) cls
         (Regex.matchFrom rest) s;
     Some {| Regex.whole := taken +:+ Regex.whole r;
             Regex.groups := (if capture then [taken] else []) ++ Regex.groups r;
             Regex.remainder := Regex.remainder r |}).
Proof. done. Qed.

(** Where there is no occurrence of the literal text an expression begins
    with, there is no match. *)
Lemma search_none text rest s :
  Regex.includes text s = false →
  Regex.search (Regex.Lit text :: rest) s = None.
Proof.
  induction s as [|c s IH].
  - simpl. rewrite orb_false_r. intros Hs. by rewrite Hs.
  - intros [Hstart Hrest]%includes_cons.
    cbn [Regex.search]. rewrite matchFrom_Lit, Hstart, IH by done. done.
Qed.

(** The first match of an expression that begins with an unbordered
    literal text is at the first occurrence of that text, when the
    expression matches there. *)
Lemma search_first_occurrence text rest u s m :
  Regex.unbordered text = true →
  Regex.includes text u = false →
  Regex.matchFrom (Regex.Lit text :: rest) (text +:+ s) = Some m →
  Regex.search (Regex.Lit text :: rest) (u +:+ text +:+ s) = Some (u, m).
Proof.
  intros Hunbordered Hu Hmatch. induction u as [|c u IH].
  - rewrite app_empty_l. destruct (text +:+ s); simpl in *; by rewrite Hmatch.
  - apply includes_cons in Hu as [Hstart Hrest].
    change (String c u +:+ ?x) with (String c (u +:+ x)).
    cbn [Regex.search]. rewrite matchFrom_Lit.
    change (String c (u +:+ text +:+ s)) with (String c u +:+ text +:+ s).
    rewrite no_overlap by done.
    change (String c u +:+ ?x) with (String c (u +:+ x)).
    by rewrite IH.
Qed.

Lemma starGreedy_until cls k u w r :
  allChars cls u = true →
  match w with String c _ => cls c = false | EmptyString => True end →
  k w = Some r →
  Regex.starGreedy cls k (u +:+ w) = Some (u, r).
Proof.
  intros Hu Hw Hk. induction u as [|c u IH].
  - rewrite app_empty_l. destruct w as [|c w]; simpl; rewrite ?Hw, Hk; done.
  - simpl in Hu. apply andb_true_iff in Hu as [Hc Hu].
    change (String c u +:+ w) with (String c (u +:+ w)). simpl.
    by rewrite Hc, IH.
Qed.

Lemma starLazy_until_literal text body post :
  Regex.unbordered text = true →
  Regex.includes text body = false →
  Regex.starLazy (λ _, true) (Regex.matchFrom [Regex.Lit text])
    (body +:+ text +:+ post)
  = Some (body, {| Regex.whole := text +:+ ""; Regex.groups := [];
                   Regex.remainder := post |}).
Proof.
  intros Hunbordered Hbody. induction body as [|c body IH].
  - rewrite app_empty_l.
    assert (Regex.matchFrom [Regex.Lit text] (text +:+ post)
            = Some {| Regex.whole := text +:+ ""; Regex.groups := [];
                      Regex.remainder := post |}) as Hk.
    { rewrite matchFrom_Lit, startsWith_app, drop_app_length. done. }
    destruct (text +:+ post); simpl in *; by rewrite Hk.
  - apply includes_cons in Hbody as [Hstart Hrest].
    assert (Regex.matchFrom [Regex.Lit text] (String c body +:+ text +:+ post)
            = None) as Hk.
    { by rewrite matchFrom_Lit, no_overlap. }
    change (String c body +:+ ?x) with (String c (body +:+ x)) in *.
    cbn [Regex.starLazy]. rewrite Hk, IH by done. done.
Qed.

End matching.

(** ** One artifact tag *)

(** The expression matches a whole tag: the attributes run to the first
    [>], the content to the first closing tag. *)
Lemma artifact_match (attrs body post : string) :
  allChars (notChar ">") attrs = true →
  Regex.includes "</antArtifact>" body = false →
  Regex.matchFrom artifactRegex
    ("<antArtifact" +:+ attrs +:+ ">" +:+ body +:+ "</antArtifact>" +:+ post)
  = Some {| Regex.whole :=
              "<antArtifact" +:+ attrs +:+ ">" +:+ body +:+ "</antArtifact>";
            Regex.groups := [body];
            Regex.remainder := post |}.
Proof.
  intros Hattrs Hbody. unfold artifactRegex.
  assert (Regex.matchFrom
            [Regex.Lit ">"; Regex.Star false (λ _, true) true;
             Regex.Lit "</antArtifact>"]
            (">" +:+ body +:+ "</antArtifact>" +:+ post)
          = Some {| Regex.whole := ">" +:+ body +:+ "</antArtifact>" +:+ "";
                    Regex.groups := [body];
                    Regex.remainder := post |}) as Hrest.
  { rewrite matchFrom_Lit, startsWith_app, drop_app_length, matchFrom_Star.
    by rewrite (starLazy_until_literal "</antArtifact>" body post eq_refl Hbody). }
  rewrite matchFrom_Lit, startsWith_app, drop_app_length, matchFrom_Star.
  rewrite (starGreedy_until _ _ attrs
             (">" +:+ body +:+ "</antArtifact>" +:+ post) _ Hattrs eq_refl Hrest).
  simpl. by rewrite !app_empty_r.
Qed.

Lemma attribute_found (name fallback u value rest : string) :
  Regex.unbordered (attributeStart name) = true →
  Regex.includes (attributeStart name) u = false →
  allChars (notChar quote) value = true →
  attributeOr name fallback
    (u +:+ attributeStart name +:+ value +:+ String quote rest)
  = value.
Proof.
  intros Hunbordered Hu Hvalue. unfold attributeOr, attributeRegex.
  erewrite search_first_occurrence; [|done..|].
  2:{ rewrite matchFrom_Lit, startsWith_app, drop_app_length, matchFrom_Star.
      by rewrite (starGreedy_until _ (Regex.matchFrom []) value
                    (String quote rest) _ Hvalue eq_refl eq_refl). }
  reflexivity.
Qed.

Lemma attribute_absent (name fallback fullTag : string) :
  Regex.includes (attributeStart name) fullTag = false →
  attributeOr name fallback fullTag = fallback.
Proof. intros Hnone. unfold attributeOr, attributeRegex. by rewrite search_none. Qed.

(** ** The loop over the matches *)

Lemma starGreedy_split cls k s taken r :
  Regex.starGreedy cls k s = Some (taken, r) →
  ∃ s', s = taken +:+ s' ∧ k s' = Some r.
Proof.
  revert taken. induction s as [|c s IH]; intros taken; simpl.
  - destruct (k "") eqn:Hk; [|done]. intros [= <- <-]. by exists "".
  - destruct (cls c).
    + destruct (Regex.starGreedy cls k s) as [[taken' r']|] eqn:Hstar.
      * intros [= <- <-]. destruct (IH _ eq_refl) as (s' & -> & Hk).
        by exists s'.
      * destruct (k (String c s)) eqn:Hk; [|done]. intros [= <- <-].
        by exists (String c s).
    + destruct (k (String c s)) eqn:Hk; [|done]. intros [= <- <-].
      by exists (String c s).
Qed.

Lemma starLazy_split cls k s taken r :
  Regex.starLazy cls k s = Some (taken, r) →
  ∃ s', s = taken +:+ s' ∧ k s' = Some r.
Proof.
  revert taken. induction s as [|c s IH]; intros taken; simpl.
  - destruct (k "") eqn:Hk; [|done]. intros [= <- <-]. by exists "".
  - destruct (k (String c s)) eqn:Hk.
    + intros [= <- <-]. by exists (String c s).
    + destruct (cls c); [|done].
      destruct (Regex.starLazy cls k s) as [[taken' r']|] eqn:Hstar; [|done].
      simpl. intros [= <- <-]. destruct (IH _ eq_refl) as (s' & -> & Hk').
      by exists s'.
Qed.

(** A match is a beginning of the text, and the remainder is what follows
    it. *)
Lemma matchFrom_split items s m :
  Regex.matchFrom items s = Some m → s = Regex.whole m +:+ Regex.remainder m.
Proof.
  revert s m. induction items as [|[text|cls|greedy cls capture] items IH];
    intros s m.
  - by intros [= <-].
  - rewrite matchFrom_Lit. destruct (Regex.startsWith text s) eqn:Hstart; [|done].
    destruct (Regex.matchFrom items _) as [r|] eqn:Hr; [|done].
    intros [= <-]. simpl. rewrite app_assoc_s, <- (IH _ _ Hr).
    by apply startsWith_true.
  - simpl. destruct s as [|c s]; [done|]. destruct (cls c); [|done].
    destruct (Regex.matchFrom items s) as [r|] eqn:Hr; [|done].
    intros [= <-]. simpl.
    change (String c ?x +:+ ?y) with (String c (x +:+ y)).
    by rewrite <- (IH _ _ Hr).
  - cbn [Regex.matchFrom].
    destruct ((if greedy then Regex.starGreedy else Regex.starLazy) cls
                (Regex.matchFrom items) s) as [[taken r]|] eqn:Hstar; [|done].
    intros [= <-]. simpl. rewrite app_assoc_s.
    assert (∃ s', s = taken +:+ s' ∧ Regex.matchFrom items s' = Some r)
      as (s' & -> & Hr).
    { destruct greedy;
        [exact (starGreedy_split _ _ _ _ _ Hstar)
        |exact (starLazy_split _ _ _ _ _ Hstar)]. }
    by rewrite <- (IH _ _ Hr).
Qed.

Lemma search_split items s before m :
  Regex.search items s = Some (before, m) →
  s = before +:+ Regex.whole m +:+ Regex.remainder m
  ∧ Regex.matchFrom items (Regex.whole m +:+ Regex.remainder m) = Some m.
Proof.
  revert before. induction s as [|c s IH]; intros before; simpl.
  - destruct (Regex.matchFrom items "") as [r|] eqn:Hr; [|done].
    intros [= <- <-]. rewrite app_empty_l, <- (matchFrom_split _ _ _ Hr). done.
  - destruct (Regex.matchFrom items (String c s)) as [r|] eqn:Hr.
    + intros [= <- <-]. rewrite app_empty_l, <- (matchFrom_split _ _ _ Hr). done.
    + destruct (Regex.search items s) as [[before' r]|] eqn:Hsearch; [|done].
      simpl. intros [= <- <-]. destruct (IH _ eq_refl) as [Hs Hm].
      split; [|done].
      change (String c before' +:+ ?x) with (String c (before' +:+ x)).
      by rewrite <- Hs.
Qed.

(** A match of the artifact expression is an opening tag, attributes
    without [>], a [>], the content and the closing tag; the content is the
    group. *)
Lemma artifactRegex_match s m :
  Regex.matchFrom artifactRegex s = Some m →
  ∃ attrs body,
    Regex.whole m
    = "<antArtifact" +:+ attrs +:+ ">" +:+ body +:+ "</antArtifact>"
    ∧ Regex.groups m = [body].
Proof.
  unfold artifactRegex. rewrite matchFrom_Lit.
  destruct (Regex.startsWith _ s); [|done].
  rewrite matchFrom_Star.
  destruct (Regex.starGreedy _ _ _) as [[attrs r1]|] eqn:Hgreedy; [|done].
  apply starGreedy_split in Hgreedy as (s1 & _ & Hk1).
  rewrite matchFrom_Lit in Hk1.
  destruct (Regex.startsWith ">" s1); [|done].
  rewrite matchFrom_Star in Hk1.
  destruct (Regex.starLazy _ _ _) as [[body r2]|] eqn:Hlazy; [|done].
  apply starLazy_split in Hlazy as (s2 & _ & Hk2).
  rewrite matchFrom_Lit in Hk2.
  destruct (Regex.startsWith "</antArtifact>" s2); [|done].
  simpl in Hk2. injection Hk2 as <-. simpl in Hk1. injection Hk1 as <-.
  simpl. intros [= <-]. simpl. exists attrs, body.
  by rewrite !app_empty_r.
Qed.

Lemma search_artifact_shorter text before m :
  Regex.search artifactRegex text = Some (before, m) →
  (String.length (Regex.remainder m) + 27 ≤ String.length text)%nat.
Proof.
  intros [-> Hm]%search_split.
  apply artifactRegex_match in Hm as (attrs & body & -> & _).
  rewrite !app_length. simpl. lia.
Qed.

Section extract.
Context (trim : string → string).

(** The loop ends before it has used up its turns, and more turns change
    nothing. *)
Lemma extractLoop_enough fuel text :
  (String.length text < fuel)%nat →
  ∃ artifacts,
    extractLoop fuel trim text = Some artifacts
    ∧ extractArtifacts trim text = Some artifacts
    ∧ (length artifacts * 27 ≤ String.length text)%nat.
Proof.
  assert (∀ fuel text, (String.length text < fuel)%nat →
            ∃ artifacts, extractLoop fuel trim text = Some artifacts
              ∧ (length artifacts * 27 ≤ String.length text)%nat
              ∧ ∀ fuel', (String.length text < fuel')%nat →
                         extractLoop fuel' trim text = Some artifacts) as Hloop.
  { clear fuel text. induction fuel as [|fuel IH]; intros text Hfuel; [lia|].
    simpl. destruct (Regex.search artifactRegex text) as [[before m]|] eqn:Hsearch.
    - pose proof (search_artifact_shorter _ _ _ Hsearch) as Hshorter.
      destruct (IH (Regex.remainder m)) as (rest & -> & Hbound & Hany); [lia|].
      eexists. split; [reflexivity|]. split; [simpl; lia|].
      intros [|fuel'] Hfuel'; [lia|]. simpl. rewrite Hsearch.
      rewrite Hany by lia. done.
    - exists []. split; [done|]. split; [simpl; lia|].
      intros [|fuel'] Hfuel'; [lia|]. simpl. by rewrite Hsearch. }
  intros Hfuel. destruct (Hloop fuel text Hfuel) as (artifacts & Hrun & Hbound & Hany).
  exists artifacts. split; [done|]. split; [|done].
  apply Hany. lia.
Qed.

End extract.

(** ** What [extractArtifacts] finds *)

Lemma occurrences_app text u w :
  text ≠ "" →
  (occurrences text u + occurrences text w ≤ occurrences text (u +:+ w))%nat.
Proof.
  intros Htext. induction u as [|c u IH].
  - rewrite app_empty_l. destruct text; [done|]. simpl. lia.
  - change (String c u +:+ w) with (String c (u +:+ w)).
    cbn [occurrences].
    destruct (Regex.startsWith text (String c u)) eqn:Hstart.
    + change (String c (u +:+ w)) with (String c u +:+ w) at 1.
      rewrite (startsWith_app_mono _ _ w Hstart). lia.
    + destruct (Regex.startsWith text (String c (u +:+ w))); lia.
Qed.

Lemma occurrences_start text s :
  text ≠ "" → (1 ≤ occurrences text (text +:+ s))%nat.
Proof.
  intros Htext. destruct text as [|c text]; [done|].
  change (String c text +:+ s) with (String c (text +:+ s)).
  cbn [occurrences].
  change (String c (text +:+ s)) with (String c text +:+ s).
  rewrite startsWith_app. lia.
Qed.

Lemma artifactTag_occurrences attrs body :
  (1 ≤ occurrences "<antArtifact" (artifactTag attrs body))%nat
  ∧ (1 ≤ occurrences "</antArtifact>" (artifactTag attrs body))%nat.
Proof.
  split; [by apply occurrences_start|].
  unfold artifactTag. rewrite <- !app_assoc_s.
  etrans; [|by apply occurrences_app].
  pose proof (occurrences_start "</antArtifact>" "") as Hend.
  rewrite app_empty_r in Hend. specialize (Hend ltac:(done)). lia.
Qed.

Section extract_properties.
Context (trim : string → string).

Lemma extractLoop_count fuel text artifacts :
  extractLoop fuel trim text = Some artifacts →
  (length artifacts ≤ occurrences "<antArtifact" text)%nat
  ∧ (length artifacts ≤ occurrences "</antArtifact>" text)%nat.
Proof.
  revert text artifacts. induction fuel as [|fuel IH]; intros text artifacts; [done|].
  simpl. destruct (Regex.search artifactRegex text) as [[before m]|] eqn:Hsearch.
  - destruct (extractLoop fuel trim (Regex.remainder m)) as [rest|] eqn:Hrest; [|done].
    intros [= <-]. destruct (IH _ _ Hrest) as [Hopen Hclose].
    apply search_split in Hsearch as [-> Hm].
    apply artifactRegex_match in Hm as (attrs & body & Hwhole & _).
    rewrite Hwhole. fold (artifactTag attrs body).
    destruct (artifactTag_occurrences attrs body) as [H1 H2].
    pose proof (occurrences_app "<antArtifact" before
                  (artifactTag attrs body +:+ Regex.remainder m) ltac:(done)).
    pose proof (occurrences_app "<antArtifact" (artifactTag attrs body)
                  (Regex.remainder m) ltac:(done)).
    pose proof (occurrences_app "</antArtifact>" before
                  (artifactTag attrs body +:+ Regex.remainder m) ltac:(done)).
    pose proof (occurrences_app "</antArtifact>" (artifactTag attrs body)
                  (Regex.remainder m) ltac:(done)).
    simpl. lia.
  - intros [= <-]. simpl. lia.
Qed.

(** X13: [extractArtifacts] always returns: its loop ends, for every text.
    It returns at most as many artifacts as the text has opening tags, and
    at most as many as it has closing tags, so a text without a complete tag
    gives none; and a tag takes 27 characters at least. *)
Theorem extractArtifacts_total (text : string) :
  ∃ artifacts,
    extractArtifacts trim text = Some artifacts
    ∧ (length artifacts ≤ occurrences "<antArtifact" text)%nat
    ∧ (length artifacts ≤ occurrences "</antArtifact>" text)%nat
    ∧ (length artifacts * 27 ≤ String.length text)%nat.
Proof.
  destruct (extractLoop_enough trim (S (String.length text)) text)
    as (artifacts & Hloop & Hrun & Hbound); [lia|].
  exists artifacts. split; [done|].
  destruct (extractLoop_count _ _ _ Hloop) as [Hopen Hclose]. done.
Qed.

(** The first tag of a text, and the text behind it. *)
Lemma extractArtifacts_first_tag (before attrs body post : string) :
  Regex.includes "<antArtifact" before = false →
  allChars (notChar ">") attrs = true →
  Regex.includes "</antArtifact>" body = false →
  ∃ rest,
    extractArtifacts trim post = Some rest
    ∧ extractArtifacts trim (before +:+ artifactTag attrs body +:+ post)
      = Some ({| Background.title :=
                   attributeOr "title" "Untitled" (artifactTag attrs body);
                 Background.language :=
                   attributeOr "language" "txt" (artifactTag attrs body);
                 Background.content := trim body |} :: rest).
Proof.
  intros Hbefore Hattrs Hbody.
  set (text := before +:+ artifactTag attrs body +:+ post).
  assert (Regex.search artifactRegex text
          = Some (before, {| Regex.whole := artifactTag attrs body;
                             Regex.groups := [body];
                             Regex.remainder := post |})) as Hsearch.
  { unfold text, artifactTag. rewrite !app_assoc_s.
    apply search_first_occurrence; [done|done|].
    by apply artifact_match. }
  pose proof (search_artifact_shorter _ _ _ Hsearch) as Hshorter.
  simpl in Hshorter.
  destruct (extractLoop_enough trim (String.length text) post)
    as (rest & Hloop & Hrun & _); [lia|].
  exists rest. split; [done|].
  unfold extractArtifacts. cbn [extractLoop]. rewrite Hsearch.
  cbn [Regex.remainder]. rewrite Hloop. done.
Qed.

End extract_properties.

Section tags.
Context (trim : string → string).

(** X14: a tag with a title and a language attribute, in a text with no
    opening tag before it, gives the artifact with that title, that
    language and the trimmed content, followed by the artifacts of the text
    behind the tag. The values have no double quote and no [>], the content
    has no closing tag, and the text of the tag before the language
    attribute does not contain the start of a language attribute. *)
Theorem extractArtifacts_well_formed_tag (before T L body post : string) :
  Regex.includes "<antArtifact" before = false →
  allChars (notChar quote) T = true →
  allChars (notChar ">") T = true →
  allChars (notChar quote) L = true →
  allChars (notChar ">") L = true →
  Regex.includes (attributeStart "language")
    ("<antArtifact " +:+ attributeText "title" T +:+ " ") = false →
  Regex.includes "</antArtifact>" body = false →
  ∃ rest,
    extractArtifacts trim post = Some rest
    ∧ extractArtifacts trim
        (before
         +:+ artifactTag
               (" " +:+ attributeText "title" T +:+ " "
                +:+ attributeText "language" L) body
         +:+ post)
      = Some ({| Background.title := T; Background.language := L;
                 Background.content := trim body |} :: rest).
Proof.
  intros Hbefore HT HT' HL HL' Hlang Hbody.
  set (attrs := " " +:+ attributeText "title" T +:+ " "
                +:+ attributeText "language" L).
  assert (allChars (notChar ">") attrs = true) as Hattrs.
  { unfold attrs, attributeText. rewrite !allChars_app, HT', HL'. reflexivity. }
  destruct (extractArtifacts_first_tag trim before attrs body post
              Hbefore Hattrs Hbody) as (rest & Hrest & ->).
  exists rest. split; [done|]. do 3 f_equal.
  - assert (artifactTag attrs body
            = "<antArtifact " +:+ attributeStart "title" +:+ T
              +:+ String quote (" " +:+ attributeText "language" L +:+ ">"
                                +:+ body +:+ "</antArtifact>")) as ->.
    { unfold artifactTag, attrs, attributeText. rewrite !app_assoc_s. reflexivity. }
    by apply attribute_found.
  - assert (artifactTag attrs body
            = ("<antArtifact " +:+ attributeText "title" T +:+ " ")
              +:+ attributeStart "language" +:+ L
              +:+ String quote (">" +:+ body +:+ "</antArtifact>")) as ->.
    { unfold artifactTag, attrs, attributeText. rewrite !app_assoc_s. reflexivity. }
    by apply attribute_found.
Qed.

(** X15: a tag in whose text, content included, no title attribute and no
    language attribute starts gives the artifact with the title [Untitled]
    and the language [txt]. *)
Theorem extractArtifacts_default_attributes (before attrs body post : string) :
  Regex.includes "<antArtifact" before = false →
  allChars (notChar ">") attrs = true →
  Regex.includes "</antArtifact>" body = false →
  Regex.includes (attributeStart "title") (artifactTag attrs body) = false →
  Regex.includes (attributeStart "language") (artifactTag attrs body) = false →
  ∃ rest,
    extractArtifacts trim post = Some rest
    ∧ extractArtifacts trim (before +:+ artifactTag attrs body +:+ post)
      = Some ({| Background.title := "Untitled"; Background.language := "txt";
                 Background.content := trim body |} :: rest).
Proof.
  intros Hbefore Hattrs Hbody Htitle Hlanguage.
  destruct (extractArtifacts_first_tag trim before attrs body post
              Hbefore Hattrs Hbody) as (rest & Hrest & ->).
  exists rest. split; [done|].
  by rewrite !attribute_absent.
Qed.

(** X16: the attributes are looked for in the whole text of the match, not
    in the opening tag only: when the tag has no title attribute and its
    content has the text of one, the artifact gets its title from the
    content. *)
Theorem extractArtifacts_title_from_content
    (before attrs body1 value body2 post : string) :
  Regex.includes "<antArtifact" before = false →
  allChars (notChar ">") attrs = true →
  Regex.includes "</antArtifact>"
    (body1 +:+ attributeText "title" value +:+ body2) = false →
  Regex.includes (attributeStart "title")
    ("<antArtifact" +:+ attrs +:+ ">" +:+ body1) = false →
  allChars (notChar quote) value = true →
  ∃ artifact rest,
    extractArtifacts trim
      (before
       +:+ artifactTag attrs (body1 +:+ attributeText "title" value +:+ body2)
       +:+ post)
    = Some (artifact :: rest)
    ∧ Background.title artifact = value
    ∧ Background.content artifact
      = trim (body1 +:+ attributeText "title" value +:+ body2).
Proof.
  intros Hbefore Hattrs Hbody Habsent Hvalue.
  destruct (extractArtifacts_first_tag trim before attrs _ post
              Hbefore Hattrs Hbody) as (rest & Hrest & ->).
  eexists _, rest. split; [reflexivity|]. split; [|reflexivity]. simpl.
  assert (artifactTag attrs (body1 +:+ attributeText "title" value +:+ body2)
          = ("<antArtifact" +:+ attrs +:+ ">" +:+ body1)
            +:+ attributeStart "title" +:+ value
            +:+ String quote (body2 +:+ "</antArtifact>")) as ->.
  { unfold artifactTag, attributeText. rewrite !app_assoc_s. reflexivity. }
  by apply attribute_found.
Qed.

End tags.

Lemma extractArtifacts_well_formed_tag_witness :
  ∃ rest,
    extractArtifacts trimAscii " done" = Some rest
    ∧ extractArtifacts trimAscii
        ("Here: "
         +:+ artifactTag
               (" " +:+ attributeText "title" "file1" +:+ " "
                +:+ attributeText "language" "python") " print(1) "
         +:+ " done")
      = Some ({| Background.title := "file1"; Background.language := "python";
                 Background.content := trimAscii " print(1) " |} :: rest).
Proof.
  apply (extractArtifacts_well_formed_tag trimAscii "Here: " "file1" "python"
           " print(1) " " done"); reflexivity.
Defined.

Lemma extractArtifacts_default_attributes_witness :
  ∃ rest,
    extractArtifacts trimAscii "" = Some rest
    ∧ extractArtifacts trimAscii ("" +:+ artifactTag "" "x = 1" +:+ "")
      = Some ({| Background.title := "Untitled"; Background.language := "txt";
                 Background.content := trimAscii "x = 1" |} :: rest).
Proof.
  apply (extractArtifacts_default_attributes trimAscii "" "" "x = 1" "");
    reflexivity.
Defined.

Lemma extractArtifacts_title_from_content_witness :
  ∃ artifact rest,
    extractArtifacts trimAscii
      (""
       +:+ artifactTag " language=js"
             ("<a " +:+ attributeText "title" "tip" +:+ ">x</a>")
       +:+ "")
    = Some (artifact :: rest)
    ∧ Background.title artifact = "tip"
    ∧ Background.content artifact
      = trimAscii ("<a " +:+ attributeText "title" "tip" +:+ ">x</a>").
Proof.
  apply (extractArtifacts_title_from_content trimAscii "" " language=js" "<a "
           "tip" ">x</a>" ""); reflexivity.
Defined.

(** ** Chat requests *)

Section some_match.
Implicit Types (items rest : list Regex.item) (s : string).

Lemma some_Lit text rest s :
  is_Some (Regex.matchFrom rest s) →
  is_Some (Regex.matchFrom (Regex.Lit text :: rest) (text +:+ s)).
Proof.
  intros [r Hr]. rewrite matchFrom_Lit, startsWith_app, drop_app_length, Hr.
  by eexists.
Qed.

Lemma some_One cls rest c s :
  cls c = true →
  is_Some (Regex.matchFrom rest s) →
  is_Some (Regex.matchFrom (Regex.One cls :: rest) (String c s)).
Proof. intros Hc [r Hr]. simpl. rewrite Hc, Hr. by eexists. Qed.

Lemma starGreedy_fallback cls k s :
  is_Some (k s) → is_Some (Regex.starGreedy cls k s).
Proof.
  intros [r Hr]. destruct s as [|c s]; simpl.
  - rewrite Hr. by eexists.
  - destruct (cls c); [|rewrite Hr; by eexists].
    destruct (Regex.starGreedy cls k s) as [[taken r']|]; [by eexists|].
    rewrite Hr. by eexists.
Qed.

Lemma some_Star cls capture rest u s :
  allChars cls u = true →
  is_Some (Regex.matchFrom rest s) →
  is_Some (Regex.matchFrom (Regex.Star true cls capture :: rest) (u +:+ s)).
Proof.
  intros Hu Hs. rewrite matchFrom_Star.
  assert (is_Some (Regex.starGreedy cls (Regex.matchFrom rest) (u +:+ s)))
    as [[taken r] ->]; [|by eexists].
  induction u as [|c u IH].
  - rewrite app_empty_l. by apply starGreedy_fallback.
  - simpl in Hu. apply andb_true_iff in Hu as [Hc Hu].
    change (String c u +:+ s) with (String c (u +:+ s)). simpl. rewrite Hc.
    destruct (IH Hu) as [[taken r] ->]. by eexists.
Qed.

(** A match somewhere in the text is found by the search. *)
Lemma search_some items before s :
  is_Some (Regex.matchFrom items s) →
  is_Some (Regex.search items (before +:+ s)).
Proof.
  intros Hs. induction before as [|c before IH].
  - rewrite app_empty_l. destruct Hs as [r Hr].
    destruct s; simpl; rewrite Hr; by eexists.
  - change (String c before +:+ s) with (String c (before +:+ s)).
    cbn [Regex.search].
    destruct (Regex.matchFrom items (String c (before +:+ s))) as [r0|];
      [by eexists|].
    destruct IH as [[b r] ->]. by eexists.
Qed.

End some_match.

(** X17: [testIsChatRequest] accepts every GET request whose address
    contains, anywhere, [https://], a run of characters without slash that
    ends in [claude.ai], and the path [/api/organizations/], an
    organization, [/chat_conversations/], a conversation and [/messages]:
    what stands before [claude.ai] in the host, before [https://] and
    behind [/messages] does not matter. *)
Theorem testIsChatRequest_accepts (before host org chat after : string) :
  allChars (notChar "/") host = true →
  org ≠ "" → allChars (notChar "/") org = true →
  chat ≠ "" → allChars (notChar "/") chat = true →
  testIsChatRequest
    (Some {| method := Js.Str "GET";
             url := Js.Str (before +:+ "https://" +:+ host
                            +:+ "claude.ai/api/organizations/" +:+ org
                            +:+ "/chat_conversations/" +:+ chat
                            +:+ "/messages" +:+ after) |})
  = true.
Proof.
  intros Hhost Horg Horg' Hchat Hchat'.
  destruct org as [|o org]; [done|]. destruct chat as [|c chat]; [done|].
  simpl in Horg', Hchat'.
  apply andb_true_iff in Horg' as [Ho Horg'].
  apply andb_true_iff in Hchat' as [Hc Hchat'].
  assert (is_Some (Regex.search chatRegex
            (before +:+ "https://" +:+ host
             +:+ "claude.ai/api/organizations/" +:+ String o org
             +:+ "/chat_conversations/" +:+ String c chat
             +:+ "/messages" +:+ after))) as Hfound.
  { apply search_some. unfold chatRegex.
    apply some_Lit, some_Star; [done|]. apply some_Lit.
    change (String o org +:+ ?x) with (String o (org +:+ x)).
    apply some_One; [done|]. apply some_Star; [done|]. apply some_Lit.
    change (String c chat +:+ ?x) with (String c (chat +:+ x)).
    apply some_One; [done|]. apply some_Star; [done|].
    apply some_Lit. by eexists. }
  unfold testIsChatRequest, Regex.test.
  destruct (before +:+ _) eqn:Hurl.
  - destruct before; discriminate Hurl.
  - simpl. by rewrite !bool_decide_true.
Qed.

(** A host that only ends in [claude.ai], inside a longer address. *)
Lemma testIsChatRequest_accepts_witness :
  testIsChatRequest
    (Some {| method := Js.Str "GET";
             url := Js.Str ("x?u=" +:+ "https://" +:+ "not"
                            +:+ "claude.ai/api/organizations/" +:+ "o1"
                            +:+ "/chat_conversations/" +:+ "c1"
                            +:+ "/messages" +:+ "/more") |})
  = true.
Proof.
  apply (testIsChatRequest_accepts "x?u=" "not" "o1" "c1" "/more"); done.
Defined.

Section literals.
Implicit Types (text s u w : string).

Lemma includes_start text s :
  Regex.startsWith text s = true → Regex.includes text s = true.
Proof. intros Hs. destruct s; simpl; by rewrite Hs. Qed.

Lemma includes_app_r text u w :
  Regex.includes text w = true → Regex.includes text (u +:+ w) = true.
Proof.
  intros Hw. induction u as [|c u IH]; [done|].
  change (String c u +:+ w) with (String c (u +:+ w)). simpl.
  by rewrite IH, orb_true_r.
Qed.

Lemma includes_app_l text u w :
  Regex.includes text u = true → Regex.includes text (u +:+ w) = true.
Proof.
  induction u as [|c u IH].
  - simpl. rewrite orb_false_r. intros Hu. rewrite app_empty_l.
    destruct text; [|done]. by destruct w.
  - change (String c u +:+ w) with (String c (u +:+ w)).
    cbn [Regex.includes]. intros [Hstart|Hu]%orb_true_iff.
    + change (String c (u +:+ w)) with (String c u +:+ w).
      by rewrite (startsWith_app_mono _ _ w Hstart).
    + by rewrite IH, orb_true_r.
Qed.

(** The literal texts of an expression all occur in what it matches. *)
Lemma matchFrom_includes (items : list Regex.item) s m text :
  Regex.matchFrom items s = Some m →
  In (Regex.Lit text) items →
  Regex.includes text (Regex.whole m) = true.
Proof.
  revert s m. induction items as [|[t|cls|greedy cls capture] items IH];
    intros s m; [done|..].
  - rewrite matchFrom_Lit. destruct (Regex.startsWith t s); [|done].
    destruct (Regex.matchFrom items _) as [r|] eqn:Hr; [|done].
    intros [= <-] [[= <-]|Hin]; simpl.
    + apply includes_start, startsWith_app.
    + apply includes_app_r. by eapply IH.
  - simpl. destruct s as [|c s]; [done|]. destruct (cls c); [|done].
    destruct (Regex.matchFrom items s) as [r|] eqn:Hr; [|done].
    intros [= <-] [[=]|Hin]. cbn [Regex.whole].
    change (String c (Regex.whole r)) with (String c "" +:+ Regex.whole r).
    apply includes_app_r. by eapply IH.
  - rewrite matchFrom_Star.
    destruct ((if greedy then Regex.starGreedy else Regex.starLazy) cls
                (Regex.matchFrom items) s) as [[taken r]|] eqn:Hstar; [|done].
    intros [= <-] [[=]|Hin]. simpl. apply includes_app_r.
    assert (∃ s', s = taken +:+ s' ∧ Regex.matchFrom items s' = Some r)
      as (s' & _ & Hr).
    { destruct greedy;
        [exact (starGreedy_split _ _ _ _ _ Hstar)
        |exact (starLazy_split _ _ _ _ _ Hstar)]. }
    by eapply IH.
Qed.

Lemma search_includes (items : list Regex.item) s text :
  is_Some (Regex.search items s) →
  In (Regex.Lit text) items →
  Regex.includes text s = true.
Proof.
  intros [[before m] Hsearch] Hin.
  apply search_split in Hsearch as [-> Hm].
  apply includes_app_r, includes_app_l. by eapply matchFrom_includes.
Qed.

End literals.

(** X18: [testIsChatRequest] accepts a request only when the request is
    there, its method is the string GET and its address is a string that
    contains [https://], [claude.ai/api/organizations/],
    [/chat_conversations/] and [/messages]. *)
Theorem testIsChatRequest_accepts_only (request : option Request) :
  testIsChatRequest request = true →
  ∃ r u,
    request = Some r
    ∧ method r = Js.Str "GET"
    ∧ url r = Js.Str u
    ∧ Regex.includes "https://" u = true
    ∧ Regex.includes "claude.ai/api/organizations/" u = true
    ∧ Regex.includes "/chat_conversations/" u = true
    ∧ Regex.includes "/messages" u = true.
Proof.
  destruct request as [[m v]|]; [|done]. unfold testIsChatRequest. simpl.
  destruct (negb (truthyValue m) || negb (truthyValue v)); [done|].
  intros [Hget Hmatch]%andb_true_iff.
  destruct m as [| |t]; try done. simpl in Hget.
  apply bool_decide_eq_true in Hget as ->.
  destruct v as [| |u]; try done.
  apply bool_decide_eq_true in Hmatch.
  exists {| method := Js.Str "GET"; url := Js.Str u |}, u.
  repeat split; eapply search_includes; try exact Hmatch;
    unfold chatRegex; simpl; tauto.
Qed.

Lemma testIsChatRequest_accepts_only_witness :
  ∃ r u,
    Some {| method := Js.Str "GET";
            url := Js.Str "https://claude.ai/api/organizations/o/chat_conversations/c/messages" |}
    = Some r
    ∧ method r = Js.Str "GET"
    ∧ url r = Js.Str u
    ∧ Regex.includes "https://" u = true
    ∧ Regex.includes "claude.ai/api/organizations/" u = true
    ∧ Regex.includes "/chat_conversations/" u = true
    ∧ Regex.includes "/messages" u = true.
Proof.
  apply (testIsChatRequest_accepts_only
           (Some {| method := Js.Str "GET";
                    url := Js.Str "https://claude.ai/api/organizations/o/chat_conversations/c/messages" |})).
  vm_compute. reflexivity.
Defined.

(** ** One message *)

(** X19: a message that is not from the assistant, or has no text, leaves
    the archive, the used names and the counter as they are. For a message
    of the assistant the step always succeeds; when every entry of the
    archive is a used name, it adds one entry for each artifact that
    [extractArtifacts] finds in the text, overwrites none, and raises the
    counter by their number, which is at most the number of closing tags
    in the text. *)
Theorem addMessageArtifacts_adds_found_artifacts (trim : string → string)
    (useDir : bool) (message : Message) (st : Background.Archive) :
  dom (Background.zip st) ⊆ Background.usedNames st →
  ∃ st' (n : nat),
    addMessageArtifacts trim useDir message st = Some st'
    ∧ Background.artifactCount st' = (Background.artifactCount st + n)%nat
    ∧ size (Background.zip st') = (size (Background.zip st) + n)%nat
    ∧ (∀ path c, Background.zip st !! path = Some c →
                 Background.zip st' !! path = Some c)
    ∧ dom (Background.zip st') ⊆ Background.usedNames st'
    ∧ match sender message, text message with
      | Js.Str "assistant", Js.Str t =>
          ∃ artifacts, extractArtifacts trim t = Some artifacts
                       ∧ n = length artifacts
                       ∧ (n ≤ occurrences "</antArtifact>" t)%nat
      | _, _ => st' = st ∧ n = 0%nat
      end.
Proof.
  intros Hdom.
  assert (∃ st' (n : nat),
            Some st = Some st'
            ∧ Background.artifactCount st' = (Background.artifactCount st + n)%nat
            ∧ size (Background.zip st') = (size (Background.zip st) + n)%nat
            ∧ (∀ path c, Background.zip st !! path = Some c →
                         Background.zip st' !! path = Some c)
            ∧ dom (Background.zip st') ⊆ Background.usedNames st'
            ∧ st' = st ∧ n = 0%nat) as Hsame.
  { exists st, 0%nat. repeat split; try done; lia. }
  unfold addMessageArtifacts.
  destruct (sender message) as [| |who] eqn:Hsender; simpl;
    [destruct Hsame as (st' & n & H); exists st', n;
     by destruct (text message)..|].
  case_bool_decide as Hwho; simpl.
  2:{ destruct Hsame as (st' & n & H1 & H2 & H3 & H4 & H5 & H6).
      exists st', n. repeat (split; [done|]).
      destruct who as [|a who]; [done|].
      assert (String a who ≠ "assistant") as Hne by done.
      clear Hwho. revert Hne.
      repeat (match goal with
              | |- context [String ?x ?y] => is_var x; destruct x as [[] [] [] [] [] [] [] []]
              | |- context [match ?y with EmptyString => _ | String _ _ => _ end] =>
                  is_var y; destruct y
              end; try done). }
  subst who.
  destruct (text message) as [| |t] eqn:Htext; simpl;
    [destruct Hsame as (st' & n & H); by exists st', n..|].
  destruct (extractLoop_enough trim (S (String.length t)) t)
    as (artifacts & Hloop & Hrun & _); [lia|].
  destruct (extractLoop_count trim _ _ _ Hloop) as [_ Hclose].
  destruct t as [|c t]; simpl.
  - destruct Hsame as (st' & n & H1 & H2 & H3 & H4 & H5 & -> & ->).
    exists st, 0%nat. repeat (split; [done|]).
    exists []. vm_compute in Hrun. injection Hrun as <-. done.
  - rewrite Hrun. simpl.
    destruct (addArtifacts_invariant (index message) useDir artifacts
                st Hdom) as (st' & Hst' & Hcount & Hsize & Hkeep & _ & Hdom' & _).
    exists st', (length artifacts). repeat (split; [done|]).
    by exists artifacts.
Qed.

(** A message of the assistant with one tag, into the empty archive. *)
Lemma addMessageArtifacts_adds_found_artifacts_witness :
  ∃ st' (n : nat),
    addMessageArtifacts trimAscii false
      {| sender := Js.Str "assistant";
         text := Js.Str (artifactTag "" "x = 1");
         index := 0 |}
      {| Background.artifactCount := 0; Background.usedNames := ∅;
         Background.zip := ∅ |}
    = Some st'
    ∧ Background.artifactCount st' = (0 + n)%nat
    ∧ size (Background.zip st')
      = (size (∅ : gmap string string) + n)%nat.
Proof.
  destruct (addMessageArtifacts_adds_found_artifacts trimAscii false
              {| sender := Js.Str "assistant";
                 text := Js.Str (artifactTag "" "x = 1");
                 index := 0 |}
              {| Background.artifactCount := 0; Background.usedNames := ∅;
                 Background.zip := ∅ |})
    as (st' & n & Hrun & Hcount & Hsize & _).
  { simpl. by rewrite dom_empty. }
  by exists st', n.
Defined.

(** * Separators and dot segments of the returned paths *)

Lemma join_empty (parts : list string) :
  Js.join "/" parts = "" → parts = [] ∨ parts = [""].
Proof.
  destruct parts as [|p [|q parts]]; [by left| |].
  - simpl. intros ->. by right.
  - change (Js.join "/" (p :: q :: parts))
      with (p +:+ "/" +:+ Js.join "/" (q :: parts)).
    by destruct p.
Qed.

Lemma sanitizedPath_join title :
  sanitizedPath (sanitizePathComponents title)
  = Js.join "/" (map sanitizeComponent (directoryNames title)).
Proof. done. Qed.

(** A path that is not empty has the sanitized directory names as its
    segments. *)
Lemma sanitizedPath_segments title :
  truthy (sanitizedPath (sanitizePathComponents title)) = true →
  segments (sanitizedPath (sanitizePathComponents title))
  = map sanitizeComponent (directoryNames title).
Proof.
  rewrite sanitizedPath_join.
  destruct (directoryNames title) as [|d dirs]; [done|].
  intros _. unfold segments. apply (split_join _ "/"); [done|done|].
  apply (sanitized_parts_no_slash (d :: dirs)).
Qed.

Lemma directoryPart_segments title :
  directorySegments (directoryPart title true)
  = if truthy (sanitizedPath (sanitizePathComponents title))
    then map sanitizeComponent (directoryNames title)
    else [].
Proof.
  unfold directoryPart. cbv zeta. simpl.
  destruct (truthy _) eqn:Hpath; [|done].
  unfold directorySegments, segments.
  rewrite (split_ends_with_separator _ "/") by done.
  rewrite removelast_last. by apply sanitizedPath_segments.
Qed.

(** In directory mode the leaf name, the counter and the extension have no
    slash: the directory segments of the returned path are those of the
    directory part. *)
Lemma getUniqueFileName_directorySegments title lang messageIndex usedNames :
  ∃ p, getUniqueFileName title lang messageIndex usedNames true
         = Some (p, {[ p ]} ∪ usedNames)
       ∧ directorySegments p = directorySegments (directoryPart title true).
Proof.
  destruct (getUniqueFileName_parts title lang messageIndex usedNames true)
    as (p & Hp & Hparts & Hcases).
  exists p. split; [done|].
  assert (allChars (notChar "/") (leafName title messageIndex true) = true)
    as Hleaf.
  { unfold leafName. simpl.
    eapply allChars_impl; [apply allowed_not_slash|].
    apply sanitizedFilename_allowed. }
  assert (allChars (notChar "/") (getFileExtension lang) = true) as Hext.
  { eapply allChars_impl; [apply allowed_not_slash|].
    apply getFileExtension_allowed. }
  destruct Hcases as [[_ ->]|[_ (k & _ & -> & _)]].
  - rewrite Hparts. apply directorySegments_app_free.
    by rewrite allChars_app, Hleaf, Hext.
  - unfold countedName. apply directorySegments_app_free.
    by rewrite !allChars_app, Hleaf, Hext, numberToString_no_slash.
Qed.

(** A directory name of allowed characters that is not empty makes the
    path not empty, and is one of its segments. *)
Lemma allowed_directory_kept title d :
  d ∈ directoryNames title →
  d ≠ "" →
  allChars allowedChar d = true →
  truthy (sanitizedPath (sanitizePathComponents title)) = true
  ∧ d ∈ map sanitizeComponent (directoryNames title).
Proof.
  intros Hd Hne Hallowed.
  assert (sanitizeComponent d = d) as Hfixed by by apply replaceRuns_fixed.
  assert (d ∈ map sanitizeComponent (directoryNames title)) as Hin.
  { apply list_elem_of_In. rewrite <- Hfixed. apply in_map.
    by apply list_elem_of_In. }
  split; [|done].
  destruct (sanitizedPath (sanitizePathComponents title)) eqn:Hpath; [|done].
  rewrite sanitizedPath_join in Hpath.
  apply join_empty in Hpath as [Hnil|Hone]; rewrite ?Hnil, ?Hone in Hin.
  - by apply elem_of_nil in Hin.
  - by apply list_elem_of_singleton in Hin.
Qed.

(** C4, amended. For a message index that is a safe integer (up to
    2^53 - 1, so that the index plus one is printed exactly and in plain
    digits), every returned path is made of the characters [A-Za-z0-9._-]
    and the forward slash, so it has no backslash; in Flat mode it is one
    segment with an underscore in it, so it has no slash at all, does not
    begin with one and is not a [..] segment. In directory mode, for every
    index and also after a collision, the directory segments of the returned
    path are the sanitized directory names of the title, in order, when the
    sanitized path is not empty, and there is none when it is empty (the
    title has no directory, or an empty one only); so a directory name that
    is not empty and made of allowed characters, such as [..], is a segment
    of the returned path as it is, and empty directory names stay empty
    segments: the title [../x] gives [../x.txt], and [/a/x] gives
    [/a/x.txt]. *)
Theorem getUniqueFileName_path_shape (title : string) (lang : Js.value)
    (messageIndex : nat) (usedNames : gset string) :
  Js.isSafeInteger messageIndex →
  (∀ useDir,
     ∃ p, getUniqueFileName title lang messageIndex usedNames useDir
            = Some (p, {[ p ]} ∪ usedNames)
          ∧ allChars pathChar p = true
          ∧ allChars (notChar backslash) p = true)
  ∧ (∃ p, getUniqueFileName title lang messageIndex usedNames false
            = Some (p, {[ p ]} ∪ usedNames)
          ∧ allChars allowedChar p = true
          ∧ safePath p)
  ∧ (∀ anyIndex : nat,
       ∃ p, getUniqueFileName title lang anyIndex usedNames true
              = Some (p, {[ p ]} ∪ usedNames)
            ∧ directorySegments p
              = (if truthy (sanitizedPath (sanitizePathComponents title))
                 then map sanitizeComponent (directoryNames title)
                 else [])
            ∧ (∀ d, d ∈ directoryNames title →
                    d ≠ "" →
                    allChars allowedChar d = true →
                    d ∈ directorySegments p))
  ∧ fst <$> getUniqueFileName "../x" Js.Null 0 ∅ true = Some "../x.txt"
  ∧ segments "../x.txt" = [".."; "x.txt"]
  ∧ fst <$> getUniqueFileName "/a/x" Js.Null 0 ∅ true = Some "/a/x.txt".
Proof.
  intros _.
  split; [|split; [|split; [|repeat split; vm_compute; reflexivity]]].
  - intros useDir.
    destruct (getUniqueFileName_cases title lang messageIndex usedNames useDir)
      as (p & Hp & _ & Hcases).
    exists p. split; [done|].
    assert (allChars pathChar p = true) as Hchars.
    { destruct Hcases as [->|[_ Hunique]]; [apply candidatePath_pathChar|].
      eapply makeUnique_chars; [apply allowed_pathChar| |exact Hunique].
      apply candidatePath_pathChar. }
    split; [done|]. by apply (allChars_impl _ _ _ pathChar_not_backslash).
  - destruct (getUniqueFileName_cases title lang messageIndex usedNames false)
      as (p & Hp & _ & Hcases).
    exists p. split; [done|].
    destruct (candidatePath_flat title lang messageIndex) as [Hallowed Hunderscore].
    assert (allChars allowedChar p = true
            ∧ allChars (notChar "_") p = false) as [Hp1 Hp2].
    { destruct Hcases as [->|[_ Hunique]]; [done|].
      eapply makeUnique_chars; [|exact Hallowed|exact Hunique]. auto. }
    split; [done|]. by apply allowed_safePath.
  - intros anyIndex.
    destruct (getUniqueFileName_directorySegments title lang anyIndex usedNames)
      as (p & Hp & Hsegments).
    exists p. split; [done|].
    rewrite Hsegments, directoryPart_segments. split; [done|].
    intros d Hd Hne Hallowed.
    destruct (allowed_directory_kept title d Hd Hne Hallowed) as [-> Hin].
    exact Hin.
Qed.

(** The title [../x] in message 0, in directory mode: the directory [..]
    of the title is the directory of the path. *)
Lemma getUniqueFileName_path_shape_witness :
  Js.isSafeInteger 0
  ∧ ∃ p, getUniqueFileName "../x" Js.Null 0 ∅ true = Some (p, {[ p ]} ∪ ∅)
         ∧ directorySegments p = [".."].
Proof.
  assert (Js.isSafeInteger 0) as Hsafe
    by (unfold Js.isSafeInteger, Js.MAX_SAFE_INTEGER; lia).
  split; [exact Hsafe|].
  destruct (getUniqueFileName_path_shape "../x" Js.Null 0 ∅ Hsafe)
    as (_ & _ & Hdirectory & _).
  destruct (Hdirectory 0%nat) as (p & Hp & Hsegments & _).
  exists p. split; [exact Hp|exact Hsegments].
Defined.
